(** * kicad-autogen: [build_lib.py]

    A shallow embedding of the symbol generator of [build_lib.py]
    (pin normalisation, geometry, field lines, drawing lines and the
    library assembler) together with the properties its design
    document states about it.

    Conventions of the embedding.
    - Python integers are [Z]; [//] and [%] with a positive divisor
      are [Z.div] and [Z.modulo] (both floor).  Python's unary minus
      binds tighter than [//], so [-width//2] is [(- width) / 2].
    - A Python exception is a value of [pyerr]; a function that may
      raise returns [result].  Statements run left to right and the
      first exception ends the call.
    - Text is [string]; [len] of a text is [String.length] (the names
      of pins are ASCII in practice).
    - The pin description as deserialised from YAML is a value of
      [yaml]: null, booleans, integers, floats and dates, texts,
      sequences and mappings.  Binary data and sets, which YAML gives
      only under explicit tags, are left out, and so is a sequence
      that an alias makes contain itself.
    - [normalise_pins] passes the sides of a unit on as it finds them.
      The emitters are embedded twice: on pins, groups and units as
      the program means them ([longest_num], [geometry], [fields],
      [draw_pins], [draw]), and on whatever [normalise_pins] returns
      ([longest_num_raw] and so on, which [library] calls); the two
      agree on units that are lists of groups of pins. *)

From Stdlib Require Import ZArith List Bool Lia.
From Stdlib Require Import Strings.String Strings.Ascii Numbers.DecimalString.
Import ListNotations.

Open Scope string_scope.
Open Scope Z_scope.

Set Implicit Arguments.
Set Warnings "-register-all".

(* ================================================================== *)
(** * Exceptions *)
(* ================================================================== *)

(** The [ValueError]s of the program: the explicit
    [raise ValueError("Invalid pins")] of [normalise_pins], the one
    [max] raises on an empty sequence, and the one of
    [for (name, num, t) in group] on a pin that has not three
    elements. *)
Inductive value_error : Type :=
| InvalidPins
| MaxOfEmpty
| Unpack.

(** [KeyError] carries the text of the key that was not found. *)
Inductive pyerr : Type :=
| IndexError
| TypeError
| KeyError (key : string)
| ValueError (why : value_error).

Inductive result (A : Type) : Type :=
| Ok (a : A)
| Err (e : pyerr).

Arguments Ok {A} a.
Arguments Err {A} e.

Definition bind {A B : Type} (r : result A) (k : A -> result B) : result B :=
  match r with
  | Ok a => k a
  | Err e => Err e
  end.

Notation "x <- r ;; k" := (bind r (fun x => k))
  (at level 61, r at next level, right associativity).
Notation "' p <- r ;; k" := (bind r (fun x => let p := x in k))
  (at level 61, p pattern, r at next level, right associativity).

(** Runs [f] over a list from left to right; the first exception wins. *)
Fixpoint mapM {A B : Type} (f : A -> result B) (l : list A) : result (list B) :=
  match l with
  | [] => Ok []
  | a :: l' => b <- f a ;; bs <- mapM f l' ;; Ok (b :: bs)
  end.

(* ================================================================== *)
(** * Dynamic values and the primitives used on them *)
(* ================================================================== *)

(** [str(z)] for an integer. *)
Definition str_of_Z (z : Z) : string :=
  NilZero.string_of_int (Z.to_int z).

(** What [yaml.safe_load] returns.  [YAtom] is a float or a date: it
    cannot be indexed, has no length and cannot be iterated; [text] is
    what [str] prints for it and [whole] its value when it is a float
    equal to an integer.  [YMap] lists the items of a mapping, in
    order, each key once. *)
Inductive yaml : Type :=
| YNone
| YBool (b : bool)
| YInt (z : Z)
| YAtom (text : string) (whole : option Z)
| YStr (s : string)
| YList (l : list yaml)
| YMap (items : list (yaml * yaml)).

(** [k == z] for a key [k] of a mapping and an integer [z]: [True]
    equals 1, [False] equals 0, a float equals the integer it is. *)
Definition key_is (z : Z) (k : yaml) : bool :=
  match k with
  | YInt z' => z' =? z
  | YBool b => (if b then 1 else 0) =? z
  | YAtom _ (Some w) => w =? z
  | _ => false
  end.

(** [v[i]] *)
Definition py_index (v : yaml) (i : nat) : result yaml :=
  match v with
  | YList l =>
      match nth_error l i with
      | Some x => Ok x
      | None => Err IndexError
      end
  | YStr s =>
      match String.get i s with
      | Some c => Ok (YStr (String c EmptyString))
      | None => Err IndexError
      end
  | YMap items =>
      match find (fun item => key_is (Z.of_nat i) (fst item)) items with
      | Some item => Ok (snd item)
      | None => Err (KeyError (str_of_Z (Z.of_nat i)))
      end
  | YNone | YBool _ | YInt _ | YAtom _ _ => Err TypeError
  end.

(** [len(v)] *)
Definition py_len (v : yaml) : result nat :=
  match v with
  | YList l => Ok (List.length l)
  | YStr s => Ok (String.length s)
  | YMap items => Ok (List.length items)
  | YNone | YBool _ | YInt _ | YAtom _ _ => Err TypeError
  end.

Fixpoint chars (s : string) : list yaml :=
  match s with
  | EmptyString => []
  | String c s' => YStr (String c EmptyString) :: chars s'
  end.

(** The elements [for x in v] visits: the items of a list, the
    characters of a text, the keys of a mapping. *)
Definition py_iter (v : yaml) : result (list yaml) :=
  match v with
  | YList l => Ok l
  | YStr s => Ok (chars s)
  | YMap items => Ok (map fst items)
  | YNone | YBool _ | YInt _ | YAtom _ _ => Err TypeError
  end.

(** [v is None] *)
Definition is_none (v : yaml) : bool :=
  match v with YNone => true | _ => false end.

(** [isinstance(v, str)] *)
Definition is_str (v : yaml) : bool :=
  match v with YStr _ => true | _ => false end.

(** [v[i][j]...], indexing from left to right. *)
Fixpoint py_path (v : yaml) (path : list nat) : result yaml :=
  match path with
  | [] => Ok v
  | i :: path' => x <- py_index v i ;; py_path x path'
  end.

(* ================================================================== *)
(** * [normalise_pins] *)
(* ================================================================== *)

(** The body of [for unit in pins]: the pair appended to [output]. *)
Definition normalise_unit (unit : yaml) : result (yaml * yaml) :=
  n <- py_len unit ;;
  if Nat.eqb n 1 then
    u0 <- py_index unit 0 ;;
    Ok (u0, YList [])
  else if Nat.eqb n 2 then
    m <- py_path unit [0; 0; 0]%nat ;;
    if is_none m then
      u1 <- py_index unit 1 ;;
      Ok (YList [], u1)
    else
      u0 <- py_index unit 0 ;;
      u1 <- py_index unit 1 ;;
      Ok (u0, u1)
  else Err (ValueError InvalidPins).

(** The list the loop runs over: [[pins]] when the probed element
    starts with a text (a pin name), [pins] itself otherwise. *)
Definition probe_units (pins : yaml) : result yaml :=
  first_pin_or_grp <- py_path pins [0; 0; 0]%nat ;;
  first_pin_or_grp <-
    (if is_none first_pin_or_grp
     then py_path pins [1; 0; 0]%nat
     else Ok first_pin_or_grp) ;;
  f0 <- py_index first_pin_or_grp 0 ;;
  Ok (if is_str f0 then YList [pins] else pins).

Definition normalise_pins (pins : yaml) : result (list (yaml * yaml)) :=
  pins' <- probe_units pins ;;
  units <- py_iter pins' ;;
  mapM normalise_unit units.

(* ================================================================== *)
(** * Pins, groups and units as the emitters read them *)
(* ================================================================== *)

(** A pin name or number: "Number and name may be given as a string or
    an integer". *)
Inductive scalar : Type :=
| SStr (s : string)
| SInt (z : Z).

(** [str(v)], which is also what ["{}".format(v)] prints. *)
Definition pystr (v : scalar) : string :=
  match v with
  | SStr s => s
  | SInt z => str_of_Z z
  end.

(** [[name, number, type]] *)
Record pin : Type := Pin {
  pin_name : scalar;
  pin_num : scalar;
  pin_type : string
}.

Definition group : Type := list pin.
Definition side : Type := list group.
Definition unit_pins : Type := (side * side)%type.

(** The table [pin_types]; a missing key is a [KeyError]. *)
Definition pin_types (t : string) : result string :=
  if String.eqb t "in" then Ok "I"
  else if String.eqb t "out" then Ok "O"
  else if String.eqb t "bidi" then Ok "B"
  else if String.eqb t "tri" then Ok "T"
  else if String.eqb t "passive" then Ok "P"
  else if String.eqb t "unspec" then Ok "U"
  else if String.eqb t "pwrin" then Ok "W"
  else if String.eqb t "pwrout" then Ok "w"
  else if String.eqb t "oc" then Ok "C"
  else if String.eqb t "od" then Ok "C"
  else if String.eqb t "oe" then Ok "E"
  else if String.eqb t "os" then Ok "E"
  else if String.eqb t "nc" then Ok "N"
  else Err (KeyError t).

(** [max(xs)] *)
Definition py_max (xs : list Z) : result Z :=
  match xs with
  | [] => Err (ValueError MaxOfEmpty)
  | x :: xs' => Ok (fold_left Z.max xs' x)
  end.

(** [len(p[0])]: [len] of an integer is a [TypeError]. *)
Definition name_len (p : pin) : result Z :=
  match pin_name p with
  | SStr s => Ok (Z.of_nat (String.length s))
  | SInt _ => Err TypeError
  end.

(** [len(str(p[1]))] *)
Definition num_len (p : pin) : result Z :=
  Ok (Z.of_nat (String.length (pystr (pin_num p)))).

(** [max([0] + [max(f(p) for p in grp) for grp in groups])] *)
Definition side_max (f : pin -> result Z) (groups : side) : result Z :=
  ms <- mapM (fun grp : group => xs <- mapM f grp ;; py_max xs) groups ;;
  py_max (0 :: ms).

(* ================================================================== *)
(** * [longest_num] and [geometry] *)
(* ================================================================== *)

Definition longest_num (units : list unit_pins) : result Z :=
  ms <- mapM (fun unit : unit_pins =>
                let '(left_pins, right_pins) := unit in
                a <- side_max num_len left_pins ;;
                b <- side_max num_len right_pins ;;
                Ok (Z.max a b)) units ;;
  py_max ms.

(** [sum(len(grp) for grp in groups)] *)
Definition n_pins (groups : side) : Z :=
  fold_left (fun acc (grp : group) => acc + Z.of_nat (List.length grp)) groups 0.

(** [len(groups)] *)
Definition n_groups (groups : side) : Z := Z.of_nat (List.length groups).

(** Truth value of a list: non-empty. *)
Definition truthy {A : Type} (l : list A) : bool :=
  match l with [] => false | _ :: _ => true end.

Definition geometry (unit : unit_pins) (longest_num : Z) : result (Z * Z * Z) :=
  let '(left_pins, right_pins) := unit in
  let length := Z.max 100 (longest_num * 50) in
  a <- side_max name_len left_pins ;;
  b <- side_max name_len right_pins ;;
  let longest_name := Z.max a b in
  let width := (longest_name + 1) * 50 in
  let width := width + width mod 100 in
  let width := if truthy left_pins && truthy right_pins then width * 2 else width in
  let width :=
    if negb (((width / 2) + length) mod 100 =? 0)
    then width + 2 * (((width / 2) + length) mod 100)
    else width in
  let n_left_pins := n_pins left_pins in
  let n_right_pins := n_pins right_pins in
  let n_left_groups := n_groups left_pins in
  let n_right_groups := n_groups right_pins in
  let height :=
    100 * Z.max (n_left_pins + n_left_groups - 1)
                (n_right_pins + n_right_groups - 1) in
  let height := if (height / 100) mod 2 =? 0 then height + 100 else height in
  Ok (width, height, length).

(* ================================================================== *)
(** * Text of the output lines *)
(* ================================================================== *)

(** The double quote and the line feed. *)
Definition dq : string := String (ascii_of_nat 34) EmptyString.
Definition nl : string := String (ascii_of_nat 10) EmptyString.

(** ["\"{}\"".format(v)] *)
Definition quoted (v : scalar) : string := dq ++ pystr v ++ dq.

(** ["F{} \"{}\" {} {} 50 H <vis> L CNN"], the part all field lines
    share; [vis] is [V] (visible) or [I] (invisible). *)
Definition field_line (idx : Z) (text : string) (x y : Z) (vis : string) : string :=
  "F" ++ str_of_Z idx ++ " " ++ dq ++ text ++ dq ++ " "
      ++ str_of_Z x ++ " " ++ str_of_Z y ++ " 50 H " ++ vis ++ " L CNN".

(** ["F{} \"{}\" {} {} 50 H I L CNN \"{}\""], the line of an order code. *)
Definition ordercode_line (idx : Z) (text : string) (x y : Z) (supplier : scalar)
    : string :=
  field_line idx text x y "I" ++ " " ++ quoted supplier.

(** ["X {} {} {} {} {} {} 50 50 {} 0 {}"] *)
Definition pin_line (name num : scalar) (pin_x pin_y length : Z)
    (direction : string) (unit_idx : Z) (code : string) : string :=
  "X " ++ pystr name ++ " " ++ pystr num ++ " "
       ++ str_of_Z pin_x ++ " " ++ str_of_Z pin_y ++ " " ++ str_of_Z length ++ " "
       ++ direction ++ " 50 50 " ++ str_of_Z unit_idx ++ " 0 " ++ code.

(** ["S {} {} {} {} {} 1 0 f"] *)
Definition box_line (x1 y1 x2 y2 unit_idx : Z) : string :=
  "S " ++ str_of_Z x1 ++ " " ++ str_of_Z y1 ++ " "
       ++ str_of_Z x2 ++ " " ++ str_of_Z y2 ++ " " ++ str_of_Z unit_idx ++ " 1 0 f".

(** ["DEF {} {} 0 40 Y Y {} {} N"] *)
Definition def_line (name designator : scalar) (n_units : Z) (locked : string) : string :=
  "DEF " ++ pystr name ++ " " ++ pystr designator ++ " 0 40 Y Y "
         ++ str_of_Z n_units ++ " " ++ locked ++ " N".

(** [enumerate(l)], counting from [start]. *)
Fixpoint enumerate_from {A : Type} (start : Z) (l : list A) : list (Z * A) :=
  match l with
  | [] => []
  | a :: l' => (start, a) :: enumerate_from (start + 1) l'
  end.

Definition enumerate {A : Type} (l : list A) : list (Z * A) := enumerate_from 0 l.

(** A loop [for x in l: ...] over a state, the body of which may raise. *)
Fixpoint foldM {S A : Type} (body : S -> A -> result S) (l : list A) (s : S) : result S :=
  match l with
  | [] => Ok s
  | a :: l' => s' <- body s a ;; foldM body l' s'
  end.

(* ================================================================== *)
(** * The component descriptor *)
(* ================================================================== *)

(** The keys of a component's mapping; [None] is an absent key. *)
Record conf : Type := Conf {
  conf_name : option scalar;
  conf_designator : option scalar;
  conf_footprint : option scalar;
  conf_datasheet : option scalar;
  conf_ordercodes : option (list (scalar * scalar));
  conf_description : option scalar;
  conf_pins : option yaml
}.

(** [d[key]] *)
Definition getitem {A : Type} (key : string) (v : option A) : result A :=
  match v with
  | Some a => Ok a
  | None => Err (KeyError key)
  end.

(** [d.get(key, default)] *)
Definition get {A : Type} (v : option A) (default : A) : A :=
  match v with
  | Some a => a
  | None => default
  end.

(* ================================================================== *)
(** * [fields] *)
(* ================================================================== *)

Definition fields (c : conf) (units : list unit_pins) : result (list string) :=
  n <- longest_num units ;;
  geoms <- mapM (fun unit => geometry unit n) units ;;
  width <- py_max (map (fun g : Z * Z * Z => fst (fst g)) geoms) ;;
  height <- py_max (map (fun g : Z * Z * Z => snd (fst g)) geoms) ;;
  let field_x := (- width) / 2 in
  let field_y := height / 2 + 50 in
  let out := [] in
  let out := (out ++ [field_line 0 (pystr (get (conf_designator c) (SStr "IC")))
                                 field_x field_y "V"])%list in
  name <- getitem "name" (conf_name c) ;;
  let out := (out ++ [field_line 1 (pystr name) field_x (- field_y) "V"])%list in
  let out :=
    match conf_footprint c with
    | Some footprint =>
        (out ++ [field_line 2 (pystr footprint) field_x (- field_y - 100) "I"])%list
    | None => (out ++ [field_line 2 "" field_x (- field_y - 100) "I"])%list
    end in
  let out :=
    match conf_datasheet c with
    | Some datasheet =>
        (out ++ [field_line 3 (pystr datasheet) field_x (- field_y - 200) "I"])%list
    | None => (out ++ [field_line 3 "" field_x (- field_y - 200) "I"])%list
    end in
  let out :=
    fold_left
      (fun out (entry : Z * (scalar * scalar)) =>
         let '(idx, (supplier, code)) := entry in
         (out ++ [ordercode_line (idx + 4) (pystr code) field_x
                                 (- field_y - (300 + idx * 100)) supplier])%list)
      (enumerate (get (conf_ordercodes c) [])) out in
  Ok out.

(* ================================================================== *)
(** * [draw_pins] and [draw] *)
(* ================================================================== *)

(** The body of the inner loop of [draw_pins]: one pin line is
    appended and [pin_y] goes down a row.  The state is [(out, pin_y)];
    [pin_x] is [x0] throughout. *)
Definition draw_pin (pin_x : Z) (direction : string) (length unit_idx : Z)
    (st : list string * Z) (p : pin) : result (list string * Z) :=
  let '(out, pin_y) := st in
  code <- pin_types (pin_type p) ;;
  Ok ((out ++ [pin_line (pin_name p) (pin_num p) pin_x pin_y length
                        direction unit_idx code])%list,
      pin_y - 100).

(** The body of the outer loop: the pins of a group, then one more row. *)
Definition draw_group (pin_x : Z) (direction : string) (length unit_idx : Z)
    (st : list string * Z) (grp : group) : result (list string * Z) :=
  st <- foldM (draw_pin pin_x direction length unit_idx) grp st ;;
  let '(out, pin_y) := st in
  Ok (out, pin_y - 100).

Definition draw_pins (groups : side) (x0 y0 : Z) (direction : string)
    (length unit_idx : Z) : result (list string) :=
  let pin_x := x0 in
  st <- foldM (draw_group pin_x direction length unit_idx) groups ([], y0) ;;
  Ok (fst st).

(** The body of the loop of [draw] for one unit: the lines added to
    [out].  [n_units] is [len(units)], [n] the shared [longest_num]. *)
Definition draw_unit (n_units : nat) (n : Z) (unit_idx : Z) (unit : unit_pins)
    : result (list string) :=
  let unit_idx := if (1 <? n_units)%nat then unit_idx + 1 else unit_idx in
  g <- geometry unit n ;;
  let '(width, height, length) := g in
  let out := [box_line ((- width) / 2) (height / 2) (width / 2) ((- height) / 2)
                       unit_idx] in
  let x0 := (- width) / 2 - length in
  let y0 := height / 2 - 50 in
  let '(left_pins, right_pins) := unit in
  out <- (if truthy left_pins
          then ls <- draw_pins left_pins x0 y0 "R" length unit_idx ;; Ok (out ++ ls)%list
          else Ok out) ;;
  out <- (if truthy right_pins
          then rs <- draw_pins right_pins (- x0) y0 "L" length unit_idx ;; Ok (out ++ rs)%list
          else Ok out) ;;
  Ok out.

Definition draw (units : list unit_pins) : result (list string) :=
  let out := ["DRAW"] in
  n <- longest_num units ;;
  out <- foldM
    (fun out (entry : Z * unit_pins) =>
       let '(unit_idx, unit) := entry in
       ls <- draw_unit (List.length units) n unit_idx unit ;;
       Ok (out ++ ls)%list)
    (enumerate units) out ;;
  Ok (out ++ ["ENDDRAW"])%list.

(* ================================================================== *)
(** * Pins and units as dynamic values *)
(* ================================================================== *)

Definition yaml_of_scalar (v : scalar) : yaml :=
  match v with
  | SStr s => YStr s
  | SInt z => YInt z
  end.

Definition yaml_of_pin (p : pin) : yaml :=
  YList [yaml_of_scalar (pin_name p); yaml_of_scalar (pin_num p); YStr (pin_type p)].

Definition yaml_of_group (grp : group) : yaml := YList (map yaml_of_pin grp).

Definition yaml_of_side (groups : side) : yaml := YList (map yaml_of_group groups).

(** The empty marker [[[None]]] that stands for a left side without
    groups. *)
Definition empty_marker : yaml := YList [YList [YNone]].

(** A unit written in the form [normalise_pins] reads back: one list
    for groups on the left only, the marker and a list for groups on
    the right only, two lists otherwise. *)
Definition yaml_of_unit (unit : unit_pins) : yaml :=
  match unit with
  | (left_pins, []) => YList [yaml_of_side left_pins]
  | ([], right_pins) => YList [empty_marker; yaml_of_side right_pins]
  | (left_pins, right_pins) => YList [yaml_of_side left_pins; yaml_of_side right_pins]
  end.

(** The pair [normalise_pins] returns for a unit. *)
Definition yaml_sides (unit : unit_pins) : yaml * yaml :=
  (yaml_of_side (fst unit), yaml_of_side (snd unit)).

(** The first pin of the first group. *)
Definition first_pin (groups : side) : option pin :=
  match groups with
  | (p :: _) :: _ => Some p
  | _ => None
  end.

(** The pin the probe of [normalise_pins] reaches in a single unit:
    the first pin of the left side, or of the right side when the left
    side is the marker. *)
Definition probed_pin (unit : unit_pins) : option pin :=
  match unit with
  | ([], right_pins) => first_pin right_pins
  | (left_pins, _) => first_pin left_pins
  end.

(** A side whose first group has a pin. *)
Definition group_headed (groups : side) : Prop := first_pin groups <> None.

(** A unit [normalise_pins] can take apart: with groups on both sides,
    the first group on the left has a pin. *)
Definition unit_splittable (unit : unit_pins) : Prop :=
  match unit with
  | (_, []) => True
  | ([], _) => True
  | (left_pins, _) => group_headed left_pins
  end.

(** A unit on which the probe of a list of units succeeds: groups on
    the right only, or a first group on the left that has a pin. *)
Definition unit_probed (unit : unit_pins) : Prop :=
  match unit with
  | ([], _ :: _) => True
  | (left_pins, _) => group_headed left_pins
  end.


(* ================================================================== *)
(** * The emitters on what [normalise_pins] returns *)
(* ================================================================== *)

(** [conf] is one mapping or a list of them. *)
Inductive conf_input : Type :=
| One (c : conf)
| Many (cs : list conf).

(** [if not isinstance(conf, list): conf = [conf]] *)
Definition conf_list (c : conf_input) : list conf :=
  match c with
  | One c => [c]
  | Many cs => cs
  end.

(** Truth value of an object: [if v]. *)
Definition truthy_yaml (v : yaml) : bool :=
  match v with
  | YNone => false
  | YBool b => b
  | YInt z => negb (z =? 0)
  | YAtom _ (Some 0) => false
  | YAtom _ _ => true
  | YStr s => negb (String.eqb s "")
  | YList l => truthy l
  | YMap items => truthy items
  end.

Section Raw.

(** [repr] of a list and of a mapping, which [str] and [format]
    print for them.  It belongs to Python, not to the program; what
    follows holds whatever it prints. *)
Variable py_repr : yaml -> string.

(** [str(v)], which is also what ["{}".format(v)] prints. *)
Definition py_str (v : yaml) : string :=
  match v with
  | YNone => "None"
  | YBool true => "True"
  | YBool false => "False"
  | YInt z => str_of_Z z
  | YAtom text _ => text
  | YStr s => s
  | YList _ | YMap _ => py_repr v
  end.

(** [pin_types[t]]: a list or a mapping cannot be a key
    ([TypeError]); no key of the table equals an object that is not a
    text. *)
Definition pin_types_at (t : yaml) : result string :=
  match t with
  | YStr s => pin_types s
  | YList _ | YMap _ => Err TypeError
  | YNone | YBool _ | YInt _ | YAtom _ _ => Err (KeyError (py_str t))
  end.

(** [len(p[0])] *)
Definition name_len_raw (p : yaml) : result Z :=
  name <- py_index p 0 ;;
  n <- py_len name ;;
  Ok (Z.of_nat n).

(** [len(str(p[1]))] *)
Definition num_len_raw (p : yaml) : result Z :=
  num <- py_index p 1 ;;
  Ok (Z.of_nat (String.length (py_str num))).

(** [max([0] + [max(f(p) for p in grp) for grp in groups])] *)
Definition side_max_raw (f : yaml -> result Z) (groups : yaml) : result Z :=
  grps <- py_iter groups ;;
  ms <- mapM (fun grp => ps <- py_iter grp ;; xs <- mapM f ps ;; py_max xs) grps ;;
  py_max (0 :: ms).

Definition longest_num_raw (units : list (yaml * yaml)) : result Z :=
  ms <- mapM (fun unit : yaml * yaml =>
                let '(left_pins, right_pins) := unit in
                a <- side_max_raw num_len_raw left_pins ;;
                b <- side_max_raw num_len_raw right_pins ;;
                Ok (Z.max a b)) units ;;
  py_max ms.

(** [sum(len(grp) for grp in groups)] *)
Definition n_pins_raw (groups : yaml) : result Z :=
  grps <- py_iter groups ;;
  lens <- mapM py_len grps ;;
  Ok (fold_left (fun acc n => acc + Z.of_nat n) lens 0).

(** [len(groups)] *)
Definition n_groups_raw (groups : yaml) : result Z :=
  n <- py_len groups ;;
  Ok (Z.of_nat n).

Definition geometry_raw (unit : yaml * yaml) (longest_num : Z) : result (Z * Z * Z) :=
  let '(left_pins, right_pins) := unit in
  let length := Z.max 100 (longest_num * 50) in
  a <- side_max_raw name_len_raw left_pins ;;
  b <- side_max_raw name_len_raw right_pins ;;
  let longest_name := Z.max a b in
  let width := (longest_name + 1) * 50 in
  let width := width + width mod 100 in
  let width :=
    if truthy_yaml left_pins && truthy_yaml right_pins then width * 2 else width in
  let width :=
    if negb (((width / 2) + length) mod 100 =? 0)
    then width + 2 * (((width / 2) + length) mod 100)
    else width in
  n_left_pins <- n_pins_raw left_pins ;;
  n_right_pins <- n_pins_raw right_pins ;;
  n_left_groups <- n_groups_raw left_pins ;;
  n_right_groups <- n_groups_raw right_pins ;;
  let height :=
    100 * Z.max (n_left_pins + n_left_groups - 1)
                (n_right_pins + n_right_groups - 1) in
  let height := if (height / 100) mod 2 =? 0 then height + 100 else height in
  Ok (width, height, length).

Definition fields_raw (c : conf) (units : list (yaml * yaml)) : result (list string) :=
  n <- longest_num_raw units ;;
  geoms <- mapM (fun unit => geometry_raw unit n) units ;;
  width <- py_max (map (fun g : Z * Z * Z => fst (fst g)) geoms) ;;
  height <- py_max (map (fun g : Z * Z * Z => snd (fst g)) geoms) ;;
  let field_x := (- width) / 2 in
  let field_y := height / 2 + 50 in
  let out := [] in
  let out := (out ++ [field_line 0 (pystr (get (conf_designator c) (SStr "IC")))
                                 field_x field_y "V"])%list in
  name <- getitem "name" (conf_name c) ;;
  let out := (out ++ [field_line 1 (pystr name) field_x (- field_y) "V"])%list in
  let out :=
    match conf_footprint c with
    | Some footprint =>
        (out ++ [field_line 2 (pystr footprint) field_x (- field_y - 100) "I"])%list
    | None => (out ++ [field_line 2 "" field_x (- field_y - 100) "I"])%list
    end in
  let out :=
    match conf_datasheet c with
    | Some datasheet =>
        (out ++ [field_line 3 (pystr datasheet) field_x (- field_y - 200) "I"])%list
    | None => (out ++ [field_line 3 "" field_x (- field_y - 200) "I"])%list
    end in
  let out :=
    fold_left
      (fun out (entry : Z * (scalar * scalar)) =>
         let '(idx, (supplier, code)) := entry in
         (out ++ [ordercode_line (idx + 4) (pystr code) field_x
                                 (- field_y - (300 + idx * 100)) supplier])%list)
      (enumerate (get (conf_ordercodes c) [])) out in
  Ok out.

(** ["X {} {} {} {} {} {} 50 50 {} 0 {}"] on the name and the number
    as they are. *)
Definition pin_line_raw (name num : yaml) (pin_x pin_y length : Z)
    (direction : string) (unit_idx : Z) (code : string) : string :=
  "X " ++ py_str name ++ " " ++ py_str num ++ " "
       ++ str_of_Z pin_x ++ " " ++ str_of_Z pin_y ++ " " ++ str_of_Z length ++ " "
       ++ direction ++ " 50 50 " ++ str_of_Z unit_idx ++ " 0 " ++ code.

(** The body of the inner loop of [draw_pins]; [(name, num, t)] takes
    the pin apart, which must have three elements. *)
Definition draw_pin_raw (pin_x : Z) (direction : string) (length unit_idx : Z)
    (st : list string * Z) (p : yaml) : result (list string * Z) :=
  let '(out, pin_y) := st in
  elems <- py_iter p ;;
  match elems with
  | [name; num; t] =>
      code <- pin_types_at t ;;
      Ok ((out ++ [pin_line_raw name num pin_x pin_y length
                                direction unit_idx code])%list,
          pin_y - 100)
  | _ => Err (ValueError Unpack)
  end.

Definition draw_group_raw (pin_x : Z) (direction : string) (length unit_idx : Z)
    (st : list string * Z) (grp : yaml) : result (list string * Z) :=
  ps <- py_iter grp ;;
  st <- foldM (draw_pin_raw pin_x direction length unit_idx) ps st ;;
  let '(out, pin_y) := st in
  Ok (out, pin_y - 100).

Definition draw_pins_raw (groups : yaml) (x0 y0 : Z) (direction : string)
    (length unit_idx : Z) : result (list string) :=
  let pin_x := x0 in
  grps <- py_iter groups ;;
  st <- foldM (draw_group_raw pin_x direction length unit_idx) grps ([], y0) ;;
  Ok (fst st).

Definition draw_unit_raw (n_units : nat) (n : Z) (unit_idx : Z) (unit : yaml * yaml)
    : result (list string) :=
  let unit_idx := if (1 <? n_units)%nat then unit_idx + 1 else unit_idx in
  g <- geometry_raw unit n ;;
  let '(width, height, length) := g in
  let out := [box_line ((- width) / 2) (height / 2) (width / 2) ((- height) / 2)
                       unit_idx] in
  let x0 := (- width) / 2 - length in
  let y0 := height / 2 - 50 in
  let '(left_pins, right_pins) := unit in
  out <- (if truthy_yaml left_pins
          then ls <- draw_pins_raw left_pins x0 y0 "R" length unit_idx ;;
               Ok (out ++ ls)%list
          else Ok out) ;;
  out <- (if truthy_yaml right_pins
          then rs <- draw_pins_raw right_pins (- x0) y0 "L" length unit_idx ;;
               Ok (out ++ rs)%list
          else Ok out) ;;
  Ok out.

Definition draw_raw (units : list (yaml * yaml)) : result (list string) :=
  let out := ["DRAW"] in
  n <- longest_num_raw units ;;
  out <- foldM
    (fun out (entry : Z * (yaml * yaml)) =>
       let '(unit_idx, unit) := entry in
       ls <- draw_unit_raw (List.length units) n unit_idx unit ;;
       Ok (out ++ ls)%list)
    (enumerate units) out ;;
  Ok (out ++ ["ENDDRAW"])%list.

(* ================================================================== *)
(** * [library] *)
(* ================================================================== *)

(** The lines one component adds to [out]. *)
Definition library_elm (elm : conf) : result (list string) :=
  pins <- getitem "pins" (conf_pins elm) ;;
  units <- normalise_pins pins ;;
  name <- getitem "name" (conf_name elm) ;;
  let out := ["#" ++ nl ++ "# " ++ pystr name ++ nl ++ "#"] in
  let locked := if Nat.eqb (List.length units) 1 then "F" else "L" in
  let out := (out ++ [def_line name (get (conf_designator elm) (SStr "IC"))
                               (Z.of_nat (List.length units)) locked])%list in
  fs <- fields_raw elm units ;;
  let out := (out ++ fs)%list in
  ds <- draw_raw units ;;
  let out := (out ++ ds)%list in
  Ok (out ++ ["ENDDEF"])%list.

Definition library (c : conf_input) : result string :=
  let cs := conf_list c in
  let out := ["EESchema-LIBRARY Version 2.3"; "#encoding utf-8"] in
  out <- foldM (fun out elm => ls <- library_elm elm ;; Ok (out ++ ls)%list) cs out ;;
  let footer := "#" ++ nl ++ "#End Library" ++ nl in
  let out := (out ++ [footer])%list in
  Ok (String.concat nl out).

(* ================================================================== *)
(** * Generic facts about the error monad and the loops *)
(* ================================================================== *)

Lemma Ok_inj {A : Type} (a b : A) : Ok a = Ok b -> a = b.
Proof.
  intros H; congruence.
Qed.

Lemma bind_ok {A B : Type} (r : result A) (k : A -> result B) (b : B) :
  bind r k = Ok b -> exists a, r = Ok a /\ k a = Ok b.
Proof.
  destruct r as [a | e]; simpl; intros H.
  - exists a; split; [reflexivity | exact H].
  - discriminate H.
Qed.

Lemma bind_err {A B : Type} (r : result A) (k : A -> result B) (e : pyerr) :
  bind r k = Err e -> r = Err e \/ exists a, r = Ok a /\ k a = Err e.
Proof.
  destruct r as [a | e']; simpl; intros H.
  - right; exists a; split; [reflexivity | exact H].
  - left; inversion H; reflexivity.
Qed.

Section Loops.

Variables A B : Type.

Lemma mapM_length (f : A -> result B) (l : list A) (bs : list B) :
  mapM f l = Ok bs -> List.length bs = List.length l.
Proof.
  revert bs; induction l as [| a l IH]; simpl; intros bs H.
  - inversion H; reflexivity.
  - apply bind_ok in H as (b & _ & H).
    destruct (mapM f l) as [bs' | e]; simpl in H; [| discriminate H].
    inversion H; subst; simpl; f_equal; apply IH; reflexivity.
Qed.

Lemma mapM_ok_all (f : A -> result B) (l : list A) :
  (forall a, In a l -> exists b, f a = Ok b) -> exists bs, mapM f l = Ok bs.
Proof.
  induction l as [| a l IH]; simpl; intros H.
  - exists []; reflexivity.
  - destruct (H a (or_introl eq_refl)) as (b & Hb).
    destruct IH as (bs & Hbs); [intros x Hx; apply H; right; exact Hx |].
    exists (b :: bs); rewrite Hb, Hbs; reflexivity.
Qed.

End Loops.

(** Inverts an equation [x <- r ;; k = Ok b] found among the hypotheses. *)
Tactic Notation "inv_bind" hyp(H) "as" ident(a) ident(Ha) :=
  apply bind_ok in H as (a & Ha & H).

Ltac inv_ok H := inversion H; subst; clear H.

(* ================================================================== *)
(** * Arithmetic of the width adjustment *)
(* ================================================================== *)

(** What [width += width % 100] gives on a multiple of 50 is the next
    multiple of 100. *)
Lemma round_up_100 (k : Z) :
  k * 50 + (k * 50) mod 100 = 100 * ((k * 50 + 99) / 100).
Proof.
  Z.to_euclidean_division_equations; lia.
Qed.

(** The nudge [width += 2 * ((width//2 + length) % 100)] lands
    [width//2 + length] on a multiple of 100 whenever [width] is a
    multiple of 100 and [length] one of 50. *)
Lemma nudge_aligns (w length : Z) :
  w mod 100 = 0 -> length mod 50 = 0 ->
  ((if negb ((w / 2 + length) mod 100 =? 0)
    then w + 2 * ((w / 2 + length) mod 100) else w) / 2 + length) mod 100 = 0.
Proof.
  intros Hw Hl.
  destruct ((w / 2 + length) mod 100 =? 0) eqn:E; simpl.
  - apply Z.eqb_eq in E; exact E.
  - apply Z.eqb_neq in E.
    apply Z.mod_divide in Hw as [q ->]; [| lia].
    apply Z.mod_divide in Hl as [m ->]; [| lia].
    replace (q * 100 / 2) with (q * 50) in *
      by (apply Z.div_unique_exact; lia).
    assert (Hr : (q * 50 + m * 50) mod 100 = 50).
    { assert (H0 : (q * 50 + m * 50) mod 100 = 50 * ((q + m) mod 2)).
      { replace (q * 50 + m * 50) with ((q + m) * 50) by lia.
        replace 100 with (2 * 50) by reflexivity.
        rewrite Z.mul_mod_distr_r by lia. lia. }
      rewrite H0 in *.
      pose proof (Z.mod_pos_bound (q + m) 2 ltac:(lia)). lia. }
    rewrite Hr; change (2 * 50) with 100.
    replace ((q * 100 + 100) / 2) with (q * 50 + 50)
      by (apply Z.div_unique_exact; lia).
    replace (q * 50 + 50 + m * 50) with (q * 50 + m * 50 + 50) by lia.
    rewrite Z.add_mod by lia. rewrite Hr. reflexivity.
Qed.

Lemma stub_length_multiple (n : Z) : (Z.max 100 (n * 50)) mod 50 = 0.
Proof.
  destruct (Z.max_spec 100 (n * 50)) as [[_ ->] | [_ ->]].
  - apply Z.mod_mul; lia.
  - reflexivity.
Qed.

(** Half a multiple of 100 plus a multiple of 50 is 0 or 50 modulo 100. *)
Lemma half_sum_residue (w length : Z) :
  w mod 100 = 0 -> length mod 50 = 0 ->
  (w / 2 + length) mod 100 = 0 \/ (w / 2 + length) mod 100 = 50.
Proof.
  intros Hw Hl.
  apply Z.mod_divide in Hw as [q ->]; [| lia].
  apply Z.mod_divide in Hl as [m ->]; [| lia].
  replace (q * 100 / 2) with (q * 50) by (apply Z.div_unique_exact; lia).
  replace (q * 50 + m * 50) with ((q + m) * 50) by lia.
  replace 100 with (2 * 50) by reflexivity.
  rewrite Z.mul_mod_distr_r by lia.
  pose proof (Z.mod_pos_bound (q + m) 2 ltac:(lia)); lia.
Qed.

(** The nudged width is still a multiple of 100. *)
Lemma nudge_multiple (w length : Z) :
  w mod 100 = 0 -> length mod 50 = 0 ->
  (if negb ((w / 2 + length) mod 100 =? 0)
   then w + 2 * ((w / 2 + length) mod 100) else w) mod 100 = 0.
Proof.
  intros Hw Hl.
  destruct (half_sum_residue w length Hw Hl) as [-> | ->].
  - exact Hw.
  - change (negb (50 =? 0)) with true; cbv iota.
    change (2 * 50) with (1 * 100); rewrite Z.mod_add by lia; exact Hw.
Qed.

(* ================================================================== *)
(** * The maxima over the pins of a side *)
(* ================================================================== *)

(** The largest [g p] over a list of pins, and 0 when there is none:
    the reference the nested [max] calls are compared with. *)
Definition max_over (g : pin -> Z) (ps : list pin) : Z :=
  fold_right (fun p m => Z.max (g p) m) 0 ps.

(** Rendered length of a pin's name and of its number. *)
Definition name_width (p : pin) : Z := Z.of_nat (String.length (pystr (pin_name p))).
Definition num_width (p : pin) : Z := Z.of_nat (String.length (pystr (pin_num p))).

(** A pin whose name is a text. *)
Definition str_name (p : pin) : Prop := exists s, pin_name p = SStr s.

(** Every group has a pin. *)
Definition groups_nonempty (groups : side) : Prop :=
  Forall (fun grp : group => grp <> []) groups.

(** Every pin is named by a text. *)
Definition names_are_str (groups : side) : Prop :=
  Forall (fun grp : group => Forall str_name grp) groups.

Lemma max_over_nonneg (g : pin -> Z) (ps : list pin) : 0 <= max_over g ps.
Proof.
  induction ps as [| p ps IH]; simpl; lia.
Qed.

Lemma max_over_app (g : pin -> Z) (ps qs : list pin) :
  max_over g (ps ++ qs)%list = Z.max (max_over g ps) (max_over g qs).
Proof.
  induction ps as [| p ps IH]; simpl.
  - pose proof (max_over_nonneg g qs); lia.
  - rewrite IH; lia.
Qed.

Lemma fold_left_max_over (g : pin -> Z) (ps : list pin) (x : Z) :
  Z.max 0 (fold_left Z.max (map g ps) x) = Z.max x (max_over g ps).
Proof.
  revert x; induction ps as [| p ps IH]; simpl; intros x.
  - lia.
  - rewrite IH; lia.
Qed.

Lemma name_len_str (p : pin) : str_name p -> name_len p = Ok (name_width p).
Proof.
  intros (s & Hs); unfold name_len, name_width; rewrite Hs; reflexivity.
Qed.

Lemma name_len_ok (p : pin) (z : Z) : name_len p = Ok z -> str_name p.
Proof.
  unfold name_len, str_name; destruct (pin_name p) as [s | i]; intros H.
  - exists s; reflexivity.
  - discriminate H.
Qed.

Section SideMax.

Variable f : pin -> result Z.
Variable g : pin -> Z.

(** [max(f(p) for p in grp)] *)
Let group_max (grp : group) : result Z := xs <- mapM f grp ;; py_max xs.

Lemma mapM_pure (ps : list pin) :
  Forall (fun p => f p = Ok (g p)) ps -> mapM f ps = Ok (map g ps).
Proof.
  induction 1 as [| p ps Hp _ IH]; simpl.
  - reflexivity.
  - rewrite Hp; simpl; rewrite IH; reflexivity.
Qed.

Lemma group_max_spec (grp : group) :
  grp <> [] -> Forall (fun p => f p = Ok (g p)) grp ->
  exists m, group_max grp = Ok m /\ Z.max 0 m = max_over g grp.
Proof.
  intros Hne Hf; unfold group_max; rewrite (mapM_pure Hf).
  destruct grp as [| p ps]; [contradiction Hne; reflexivity |].
  simpl; eexists; split; [reflexivity |].
  rewrite fold_left_max_over; reflexivity.
Qed.

Lemma groups_max_spec (groups : side) :
  groups_nonempty groups ->
  Forall (fun grp : group => Forall (fun p => f p = Ok (g p)) grp) groups ->
  exists ms, mapM group_max groups = Ok ms /\
    forall acc, 0 <= acc ->
      fold_left Z.max ms acc = Z.max acc (max_over g (List.concat groups)).
Proof.
  induction groups as [| grp groups IH]; intros Hne Hf.
  - exists []; split; [reflexivity |]; simpl; intros; lia.
  - inversion Hne as [| ? ? Hg Hne']; subst.
    inversion Hf as [| ? ? Hfg Hf']; subst.
    destruct (group_max_spec Hg Hfg) as (m & Hm & Hmax).
    destruct (IH Hne' Hf') as (ms & Hms & Hfold).
    exists (m :: ms); split.
    + simpl; rewrite Hm; simpl; rewrite Hms; reflexivity.
    + intros acc Hacc; simpl.
      rewrite Hfold by lia.
      rewrite max_over_app, <- Hmax.
      pose proof (max_over_nonneg g (List.concat groups)); lia.
Qed.

(** On a side whose groups all have a pin and on whose pins [f] does
    not raise, the nested maxima return the largest value, or 0. *)
Lemma side_max_spec (groups : side) :
  groups_nonempty groups ->
  Forall (fun grp : group => Forall (fun p => f p = Ok (g p)) grp) groups ->
  side_max f groups = Ok (max_over g (List.concat groups)).
Proof.
  intros Hne Hf; unfold side_max.
  destruct (groups_max_spec Hne Hf) as (ms & Hms & Hfold).
  fold group_max; rewrite Hms; simpl.
  rewrite Hfold by lia.
  pose proof (max_over_nonneg g (List.concat groups)); f_equal; lia.
Qed.

(** Conversely a side on which the maxima return has no empty group and
    no pin on which [f] raises. *)
Lemma side_max_ok (groups : side) (m : Z) :
  side_max f groups = Ok m ->
  groups_nonempty groups /\
  Forall (fun grp : group => Forall (fun p => exists z, f p = Ok z) grp) groups.
Proof.
  unfold side_max; intros H; inv_bind H as ms Hms; clear H.
  revert ms Hms; induction groups as [| grp groups IH]; intros ms Hms.
  - split; constructor.
  - simpl in Hms; inv_bind Hms as x Hx; inv_bind Hms as ms' Hms'; inv_ok Hms.
    destruct (IH _ Hms') as (Hne & Hf).
    inv_bind Hx as xs Hxs.
    split; constructor; trivial.
    + intros ->; simpl in Hxs; inv_ok Hxs; discriminate Hx.
    + clear - Hxs; revert xs Hxs; induction grp as [| p ps IHp]; intros xs Hxs.
      * constructor.
      * simpl in Hxs; inv_bind Hxs as z Hz; inv_bind Hxs as zs Hzs; inv_ok Hxs.
        constructor; [exists z; exact Hz | apply (IHp _ Hzs)].
Qed.

End SideMax.

(* ================================================================== *)
(** * Properties of [geometry] *)
(* ================================================================== *)

(** Number of pins and of groups of a side. *)
Definition pin_count (groups : side) : Z := Z.of_nat (List.length (List.concat groups)).
Definition group_count (groups : side) : Z := Z.of_nat (List.length groups).

Lemma n_pins_from (groups : side) (acc : Z) :
  fold_left (fun acc (grp : group) => acc + Z.of_nat (List.length grp)) groups acc
  = acc + pin_count groups.
Proof.
  unfold pin_count; revert acc; induction groups as [| grp groups IH]; simpl; intros acc.
  - lia.
  - rewrite IH, length_app; lia.
Qed.

Lemma n_pins_count (groups : side) : n_pins groups = pin_count groups.
Proof.
  unfold n_pins; rewrite n_pins_from; lia.
Qed.

(** The least multiple of [m] that is at least [x]. *)
Definition round_up_to (m x : Z) : Z := m * ((x + m - 1) / m).

Lemma round_up_to_least (m x : Z) :
  0 < m ->
  x <= round_up_to m x /\ (round_up_to m x) mod m = 0 /\
  forall y, x <= y -> y mod m = 0 -> round_up_to m x <= y.
Proof.
  intros Hm; unfold round_up_to; repeat split.
  - assert (Hm0 : m <> 0) by lia.
    pose proof (Z.div_mod (x + m - 1) m Hm0).
    pose proof (Z.mod_pos_bound (x + m - 1) m Hm); lia.
  - rewrite Z.mul_comm; apply Z.mod_mul; lia.
  - intros y Hy Hmod.
    apply Z.mod_divide in Hmod as [q ->]; [| lia].
    assert ((x + m - 1) / m < q + 1); [| nia].
    apply Z.div_lt_upper_bound; nia.
Qed.

(** What [geometry] returns, with the maxima over the names replaced by
    their values and the counters by the counts. *)
Lemma geometry_ok (left_pins right_pins : side) (n w h len : Z) :
  geometry (left_pins, right_pins) n = Ok (w, h, len) ->
  exists a b,
    side_max name_len left_pins = Ok a /\
    side_max name_len right_pins = Ok b /\
    len = Z.max 100 (n * 50) /\
    (let text := round_up_to 100 ((Z.max a b + 1) * 50) in
     let cols := if truthy left_pins && truthy right_pins then text * 2 else text in
     w = if negb ((cols / 2 + len) mod 100 =? 0)
         then cols + 2 * ((cols / 2 + len) mod 100) else cols) /\
    (let rows := Z.max (pin_count left_pins + group_count left_pins - 1)
                       (pin_count right_pins + group_count right_pins - 1) in
     h = if rows mod 2 =? 0 then 100 * rows + 100 else 100 * rows).
Proof.
  unfold geometry; intros H.
  inv_bind H as a Ha; inv_bind H as b Hb; cbv zeta in H.
  match type of H with
  | Ok (?W, ?H, ?L) = _ =>
      assert (Hw : w = W) by congruence;
      assert (Hh : h = H) by congruence;
      assert (Hlen : len = L) by congruence
  end.
  clear H; subst w h len.
  exists a, b; repeat split; trivial.
  - cbv zeta; unfold round_up_to.
    change (100 - 1) with 99; replace ((Z.max a b + 1) * 50 + 100 - 1)
      with ((Z.max a b + 1) * 50 + 99) by lia.
    rewrite <- round_up_100; reflexivity.
  - cbv zeta; rewrite !n_pins_count; unfold n_groups, group_count.
    rewrite (Z.mul_comm 100), Z.div_mul by lia.
    rewrite (Z.mul_comm _ 100); reflexivity.
Qed.

Lemma side_max_name_total (groups : side) :
  groups_nonempty groups -> names_are_str groups ->
  side_max name_len groups = Ok (max_over name_width (List.concat groups)).
Proof.
  intros Hne Hstr; apply side_max_spec; [exact Hne |].
  eapply Forall_impl; [| exact Hstr].
  intros grp Hgrp; eapply Forall_impl; [| exact Hgrp].
  intros p; apply name_len_str.
Qed.

Lemma side_max_num_total (groups : side) :
  groups_nonempty groups ->
  side_max num_len groups = Ok (max_over num_width (List.concat groups)).
Proof.
  intros Hne; apply side_max_spec; [exact Hne |].
  apply Forall_forall; intros grp _; apply Forall_forall; intros p _; reflexivity.
Qed.

Lemma side_max_name_ok (groups : side) (a : Z) :
  side_max name_len groups = Ok a ->
  groups_nonempty groups /\ names_are_str groups /\
  a = max_over name_width (List.concat groups).
Proof.
  intros H; destruct (side_max_ok _ _ H) as (Hne & Hf).
  assert (Hstr : names_are_str groups).
  { eapply Forall_impl; [| exact Hf].
    intros grp Hgrp; eapply Forall_impl; [| exact Hgrp].
    intros p (z & Hz); exact (name_len_ok _ Hz). }
  repeat split; trivial.
  rewrite (side_max_name_total Hne Hstr) in H; congruence.
Qed.

(** On sides without an empty group and with text names, [geometry]
    returns. *)
Lemma geometry_total (left_pins right_pins : side) (n : Z) :
  groups_nonempty left_pins -> names_are_str left_pins ->
  groups_nonempty right_pins -> names_are_str right_pins ->
  exists w h len, geometry (left_pins, right_pins) n = Ok (w, h, len).
Proof.
  intros Hl Hls Hr Hrs; unfold geometry.
  rewrite (side_max_name_total Hl Hls), (side_max_name_total Hr Hrs).
  cbn [bind]; eauto.
Qed.

(** Scenario A of the design document: one left group of two pins. *)
Definition pin_A : pin := Pin (SStr "A") (SInt 1) "in".
Definition pin_B : pin := Pin (SStr "B") (SInt 2) "in".
Definition scenario_A : unit_pins := ([[pin_A; pin_B]], []).

(** C1. Grid alignment: whatever the unit and the shared longest
    pin-number length, the triple (width, height, stub length) that
    [geometry] returns has (width div 2 + stub length) mod 100 = 0. *)
Theorem geometry_grid_aligned (unit : unit_pins) (n w h len : Z) :
  geometry unit n = Ok (w, h, len) -> (w / 2 + len) mod 100 = 0.
Proof.
  destruct unit as [left_pins right_pins]; intros H.
  apply geometry_ok in H as (a & b & _ & _ & Hlen & Hw & _).
  cbv zeta in Hw; subst w len.
  apply nudge_aligns; [| apply stub_length_multiple].
  destruct (round_up_to_least ((Z.max a b + 1) * 50) (m := 100)) as (_ & Hm & _); [lia |].
  destruct (truthy left_pins && truthy right_pins); [| exact Hm].
  apply Z.mod_divide in Hm as [q Hq]; [| lia]; rewrite Hq.
  replace (q * 100 * 2) with (2 * q * 100) by lia; apply Z.mod_mul; lia.
Qed.

Lemma geometry_grid_aligned_witness :
  geometry scenario_A 1 = Ok (200, 300, 100) /\ (200 / 2 + 100) mod 100 = 0.
Proof.
  split; [reflexivity |].
  apply (geometry_grid_aligned scenario_A 1 (h := 300)); reflexivity.
Defined.

(** C2. Height: the height [geometry] returns is 100 times the larger
    of (pins + groups - 1) over the two sides, plus 100 when that
    number of rows is even; it is therefore an odd multiple of 100. *)
Theorem geometry_height_formula (unit : unit_pins) (n w h len : Z) :
  geometry unit n = Ok (w, h, len) ->
  let rows := Z.max (pin_count (fst unit) + group_count (fst unit) - 1)
                    (pin_count (snd unit) + group_count (snd unit) - 1) in
  h = (if Z.even rows then 100 * rows + 100 else 100 * rows) /\
  exists k, Z.odd k = true /\ h = 100 * k.
Proof.
  destruct unit as [left_pins right_pins]; intros H; simpl fst; simpl snd.
  apply geometry_ok in H as (_ & _ & _ & _ & _ & _ & Hh).
  cbv zeta in *; rewrite <- Zeven_mod in Hh.
  set (rows := Z.max _ _) in *.
  split; [exact Hh |].
  destruct (Z.even rows) eqn:E.
  - exists (rows + 1); split; [| lia].
    rewrite Z.odd_add, <- Z.negb_even, E; reflexivity.
  - exists rows; split; [| exact Hh].
    rewrite <- Z.negb_even, E; reflexivity.
Qed.

Lemma geometry_height_formula_witness :
  geometry scenario_A 1 = Ok (200, 300, 100) /\
  300 = 100 * Z.max (2 + 1 - 1) (0 + 0 - 1) + 100 /\
  exists k, Z.odd k = true /\ 300 = 100 * k.
Proof.
  split; [reflexivity |].
  destruct (geometry_height_formula scenario_A 1 (w := 200) (h := 300) (len := 100)
              eq_refl) as (Hh & Hodd).
  split; [exact Hh | exact Hodd].
Defined.

(* ------------------------------------------------------------------ *)
(** ** Width *)

(** The pins of both sides of a unit. *)
Definition unit_all_pins (unit : unit_pins) : list pin :=
  (List.concat (fst unit) ++ List.concat (snd unit))%list.

(** Length of the longest pin name of a unit, 0 without pins. *)
Definition longest_name (unit : unit_pins) : Z :=
  max_over name_width (unit_all_pins unit).

(** A unit with groups on both sides. *)
Definition two_sided (unit : unit_pins) : bool :=
  truthy (fst unit) && truthy (snd unit).

(** The adjustment that lands (half-width + stub length) on a multiple
    of 100. *)
Definition nudged (cols len : Z) : Z := cols + 2 * ((cols / 2 + len) mod 100).

(** The width "(longest-name-length + 1) x 50 rounded up to a multiple
    of [m], doubled when the unit has pin groups on both sides, then
    nudged": the design document reads it with [m = 200]. *)
Definition width_rounded_to (m : Z) (unit : unit_pins) (len : Z) : Z :=
  let text := round_up_to m ((longest_name unit + 1) * 50) in
  let cols := if two_sided unit then 2 * text else text in
  nudged cols len.

(** The width formula as the design document states it. *)
Definition width_claim (unit : unit_pins) (n : Z) : Prop :=
  forall w h len, geometry unit n = Ok (w, h, len) -> w = width_rounded_to 200 unit len.

(** C3 (as amended). Width: the width [geometry] returns is
    (longest-name-length + 1) x 50 rounded up to a multiple of 100 (not
    200), doubled when the unit has pin groups on both sides, and then
    increased only by the grid-alignment nudge. *)
Theorem geometry_width_formula (unit : unit_pins) (n w h len : Z) :
  geometry unit n = Ok (w, h, len) ->
  len = Z.max 100 (n * 50) /\ w = width_rounded_to 100 unit len.
Proof.
  destruct unit as [left_pins right_pins]; intros H.
  apply geometry_ok in H as (a & b & Ha & Hb & Hlen & Hw & _).
  apply side_max_name_ok in Ha as (_ & _ & ->).
  apply side_max_name_ok in Hb as (_ & _ & ->).
  split; [exact Hlen |].
  unfold width_rounded_to, longest_name, unit_all_pins, two_sided, nudged; simpl fst; simpl snd.
  rewrite max_over_app; cbv zeta in *; rewrite Hw.
  set (text := round_up_to 100 _).
  replace (text * 2) with (2 * text) by lia.
  set (cols := if truthy left_pins && truthy right_pins then 2 * text else text).
  destruct (Z.eqb_spec ((cols / 2 + len) mod 100) 0) as [E | E]; simpl.
  - rewrite E; lia.
  - reflexivity.
Qed.

Lemma geometry_width_formula_witness :
  geometry scenario_A 1 = Ok (200, 300, 100) /\
  100 = Z.max 100 (1 * 50) /\ 200 = width_rounded_to 100 scenario_A 100.
Proof.
  split; [reflexivity |].
  apply (geometry_width_formula scenario_A 1 (h := 300)); reflexivity.
Defined.

(** One pin on the left, numbered with three digits: the stub is 150
    long. *)
Definition pin_A100 : pin := Pin (SStr "A") (SInt 100) "in".
Definition three_digits : unit_pins := ([[pin_A100]], []).

Example three_digits_geometry :
  longest_num [three_digits] = Ok 3 /\
  geometry three_digits 3 = Ok (100, 100, 150) /\
  width_rounded_to 200 three_digits 150 = 300.
Proof. repeat split. Qed.

(** The width is 100 there: the name needs 100, and 100 / 2 + 150 is on
    the grid.  Rounded up to 200 it would be nudged to 300. *)
Lemma width_claim_fails : ~ width_claim three_digits 3.
Proof.
  intros H; specialize (H 100 100 150 eq_refl); vm_compute in H; discriminate H.
Qed.

(** A unit with one pin on each side: its width is 200, where rounding
    to 200 before doubling gives 400. *)
Definition one_each_side : unit_pins := ([[pin_A]], [[pin_B]]).

Example one_each_side_geometry :
  geometry one_each_side 1 = Ok (200, 100, 100) /\
  width_rounded_to 200 one_each_side 100 = 400.
Proof. split; reflexivity. Qed.

(* ------------------------------------------------------------------ *)
(** ** Sides without groups *)

(** Units none of whose groups is empty. *)
Definition unit_groups_nonempty (unit : unit_pins) : Prop :=
  groups_nonempty (fst unit) /\ groups_nonempty (snd unit).

Lemma side_max_nil (f : pin -> result Z) : side_max f [] = Ok 0.
Proof. reflexivity. Qed.

Lemma fold_left_max_units (units : list unit_pins) (x : Z) :
  0 <= x ->
  fold_left Z.max (map (fun u => max_over num_width (unit_all_pins u)) units) x
  = Z.max x (max_over num_width (flat_map unit_all_pins units)).
Proof.
  revert x; induction units as [| u units IH]; simpl; intros x Hx.
  - lia.
  - rewrite IH by lia; rewrite max_over_app; lia.
Qed.

(** Over units without an empty group, [longest_num] is the length of
    the longest rendered pin number of all sides of all units. *)
Lemma longest_num_total (units : list unit_pins) :
  units <> [] -> Forall unit_groups_nonempty units ->
  longest_num units = Ok (max_over num_width (flat_map unit_all_pins units)).
Proof.
  intros Hne Hwf; unfold longest_num.
  assert (Hm : mapM (fun unit : unit_pins =>
                       let '(left_pins, right_pins) := unit in
                       a <- side_max num_len left_pins ;;
                       b <- side_max num_len right_pins ;;
                       Ok (Z.max a b)) units
               = Ok (map (fun u => max_over num_width (unit_all_pins u)) units)).
  { clear Hne; induction Hwf as [| [l r] units [Hl Hr] _ IH]; [reflexivity |].
    simpl in Hl, Hr; cbn [mapM].
    rewrite (side_max_num_total Hl), (side_max_num_total Hr); cbn [bind].
    rewrite IH; cbn [bind map]; unfold unit_all_pins; simpl fst; simpl snd.
    rewrite max_over_app; reflexivity. }
  rewrite Hm; cbn [bind].
  destruct units as [| u units]; [contradiction Hne; reflexivity |].
  cbn [map py_max flat_map]; rewrite fold_left_max_units by apply max_over_nonneg.
  rewrite max_over_app; reflexivity.
Qed.

(** The safety of empty sides as the design document states it: a unit
    with a side without groups never makes [longest_num] or [geometry]
    raise. *)
Definition empty_side_claim (unit : unit_pins) : Prop :=
  fst unit = [] \/ snd unit = [] ->
  (exists n, longest_num [unit] = Ok n) /\
  (forall n, exists g, geometry unit n = Ok g).

(** A unit without left groups whose right side holds one group
    without pins. *)
Definition right_empty_group : unit_pins := ([], [[]]).

(** There the [max] over the pins of the empty group raises, in
    [longest_num] and in [geometry]. *)
Lemma empty_side_claim_fails : ~ empty_side_claim right_empty_group.
Proof.
  intros H; destruct (H (or_introl eq_refl)) as ((n & Hn) & _); discriminate Hn.
Qed.

Lemma right_empty_group_raises :
  longest_num [right_empty_group] = Err (ValueError MaxOfEmpty) /\
  geometry right_empty_group 0 = Err (ValueError MaxOfEmpty).
Proof. split; reflexivity. Qed.

(** C8 (as amended). Empty sides: for a unit of a component in which
    one or both sides have no pin groups, provided no group of the
    component is without pins and the names of the unit's pins are
    texts, neither the shared longest pin-number length nor the
    geometry of the unit raises; a side without groups contributes 0 to
    both maxima. *)
Theorem empty_side_safe (units : list unit_pins) (unit : unit_pins) :
  In unit units ->
  fst unit = [] \/ snd unit = [] ->
  Forall unit_groups_nonempty units ->
  names_are_str (fst unit) -> names_are_str (snd unit) ->
  (exists n,
     longest_num units = Ok n /\
     n = max_over num_width (flat_map unit_all_pins units) /\
     exists w h len, geometry unit n = Ok (w, h, len)) /\
  side_max name_len [] = Ok 0 /\ side_max num_len [] = Ok 0.
Proof.
  intros Hin _ Hwf Hl Hr; split; [| split; reflexivity].
  eexists; split; [| split; [reflexivity |]].
  - apply longest_num_total; [| exact Hwf].
    intros ->; destruct Hin.
  - destruct unit as [l r]; simpl in *.
    rewrite Forall_forall in Hwf; destruct (Hwf _ Hin) as (Hnl & Hnr).
    apply geometry_total; assumption.
Qed.

(** A unit with pins on the right only. *)
Definition right_only : unit_pins := ([], [[pin_A; pin_B]]).

Lemma empty_side_safe_witness :
  (exists n,
     longest_num [right_only] = Ok n /\
     n = max_over num_width (flat_map unit_all_pins [right_only]) /\
     exists w h len, geometry right_only n = Ok (w, h, len)) /\
  side_max name_len [] = Ok 0 /\ side_max num_len [] = Ok 0.
Proof.
  apply (@empty_side_safe [right_only] right_only).
  - left; reflexivity.
  - left; reflexivity.
  - repeat constructor; discriminate.
  - constructor.
  - repeat constructor; eexists; reflexivity.
Defined.

(* ------------------------------------------------------------------ *)
(** ** The unit without pins *)



(* ================================================================== *)
(** * Properties of [normalise_pins] *)
(* ================================================================== *)

(** What indexing with 0 or 1 raises: [IndexError] on a list or a
    text that is too short, [TypeError] on an object that cannot be
    indexed, [KeyError] on a mapping without that key. *)
Definition lookup_error (e : pyerr) : Prop :=
  e = IndexError \/ e = TypeError \/ e = KeyError "0" \/ e = KeyError "1".

Lemma py_index_err (v : yaml) (i : nat) (e : pyerr) :
  (i <= 1)%nat -> py_index v i = Err e -> lookup_error e.
Proof.
  unfold lookup_error; intros Hi; destruct v as [| b | z | text w | s | l | items]; simpl;
    try (intros H; inv_ok H; auto; fail).
  - destruct (String.get i s); intros H; inv_ok H; auto.
  - destruct (nth_error l i); intros H; inv_ok H; auto.
  - destruct (find _ items); intros H; inv_ok H.
    destruct i as [| [| i]]; [auto | auto | lia].
Qed.

Lemma py_path_err (path : list nat) (v : yaml) (e : pyerr) :
  Forall (fun i => i <= 1)%nat path -> py_path v path = Err e -> lookup_error e.
Proof.
  intros Hpath; revert v; induction Hpath as [| i path Hi _ IH]; simpl; intros v H.
  - discriminate H.
  - apply bind_err in H as [H | (x & _ & H)].
    + exact (py_index_err _ Hi H).
    + exact (IH _ H).
Qed.

Lemma py_len_err (v : yaml) (e : pyerr) : py_len v = Err e -> lookup_error e.
Proof.
  unfold lookup_error; destruct v; simpl; intros H; inv_ok H; auto.
Qed.

Lemma py_iter_err (v : yaml) (e : pyerr) : py_iter v = Err e -> lookup_error e.
Proof.
  unfold lookup_error; destruct v; simpl; intros H; inv_ok H; auto.
Qed.

Lemma lookup_error_not_invalid : ~ lookup_error (ValueError InvalidPins).
Proof.
  intros [H | [H | [H | H]]]; discriminate H.
Qed.

(** Discharges the bound on the indices the program uses. *)
Ltac index_bound := repeat constructor; lia.

Lemma probe_units_err (pins : yaml) (e : pyerr) :
  probe_units pins = Err e -> lookup_error e.
Proof.
  unfold probe_units; intros H.
  apply bind_err in H as [H | (x & _ & H)];
    [apply py_path_err in H; [exact H | index_bound] |].
  apply bind_err in H as [H | (y & _ & H)].
  - destruct (is_none x); [| discriminate H].
    apply py_path_err in H; [exact H | index_bound].
  - apply bind_err in H as [H | (z & _ & H)]; [| discriminate H].
    apply py_index_err in H; [exact H | lia].
Qed.

(** A unit whose length is neither 1 nor 2. *)
Definition bad_length (unit : yaml) : Prop :=
  exists n, py_len unit = Ok n /\ n <> 1%nat /\ n <> 2%nat.

(** What [normalise_unit] raises on a unit of length 1 or 2 is an
    indexing error; ["Invalid pins"] is raised on the other lengths and
    on them only. *)
Lemma normalise_unit_err (unit : yaml) (e : pyerr) :
  normalise_unit unit = Err e ->
  (bad_length unit /\ e = ValueError InvalidPins) \/ lookup_error e.
Proof.
  unfold normalise_unit; intros H.
  apply bind_err in H as [H | (n & Hn & H)]; [right; exact (py_len_err _ H) |].
  assert (Hi : forall v i e', (i <= 1)%nat -> py_index v i = Err e' -> lookup_error e')
    by (intros v i e' Hle Hv; exact (py_index_err v Hle Hv)).
  destruct (Nat.eqb_spec n 1) as [-> | H1].
  { right; apply bind_err in H as [H | (x & _ & H)];
      [eapply Hi; [| exact H]; lia | discriminate H]. }
  destruct (Nat.eqb_spec n 2) as [-> | H2].
  { right; apply bind_err in H as [H | (m & _ & H)].
    { apply py_path_err in H; [exact H | index_bound]. }
    destruct (is_none m).
    - apply bind_err in H as [H | (x & _ & H)];
        [eapply Hi; [| exact H]; lia | discriminate H].
    - apply bind_err in H as [H | (x & _ & H)];
        [eapply Hi; [| exact H]; lia |].
      apply bind_err in H as [H | (y & _ & H)];
        [eapply Hi; [| exact H]; lia | discriminate H]. }
  left; split; [exists n; auto | congruence].
Qed.

Lemma normalise_unit_bad_length (unit : yaml) :
  bad_length unit -> normalise_unit unit = Err (ValueError InvalidPins).
Proof.
  intros (n & Hn & H1 & H2); unfold normalise_unit; rewrite Hn; cbn [bind].
  apply Nat.eqb_neq in H1, H2; rewrite H1, H2; reflexivity.
Qed.

(** [unit] is the unit the loop stops at: the ones before it were
    normalised. *)
Definition reached {A B : Type} (f : A -> result B) (l : list A) (a : A) : Prop :=
  exists done rest out, l = (done ++ a :: rest)%list /\ mapM f done = Ok out.

Lemma mapM_err {A B : Type} (f : A -> result B) (l : list A) (e : pyerr) :
  mapM f l = Err e <-> exists a, reached f l a /\ f a = Err e.
Proof.
  split.
  - induction l as [| a l IH]; simpl; intros H; [discriminate H |].
    apply bind_err in H as [H | (b & Hb & H)].
    + exists a; split; [| exact H].
      exists [], l, []; split; reflexivity.
    + apply bind_err in H as [H | (bs & _ & H)]; [| discriminate H].
      destruct (IH H) as (x & (done & rest & out & -> & Hout) & Hx).
      exists x; split; [| exact Hx].
      exists (a :: done), rest, (b :: out); split; [reflexivity |].
      simpl; rewrite Hb, Hout; reflexivity.
  - intros (a & (done & rest & out & -> & Hout) & Ha).
    revert out Hout; induction done as [| d done IH]; simpl; intros out Hout.
    + rewrite Ha; reflexivity.
    + apply bind_ok in Hout as (b & Hb & Hout).
      apply bind_ok in Hout as (bs & Hbs & _).
      rewrite Hb; simpl; rewrite (IH _ Hbs); reflexivity.
Qed.

(** The inputs on which ["Invalid pins"] is raised: the probe of the
    shape succeeds, and the first unit that is not normalised has a
    length other than 1 and 2. *)
Definition invalid_shape (pins : yaml) : Prop :=
  exists pins' units unit,
    probe_units pins = Ok pins' /\ py_iter pins' = Ok units /\
    reached normalise_unit units unit /\ bad_length unit.

Lemma normalise_pins_invalid_iff (pins : yaml) :
  normalise_pins pins = Err (ValueError InvalidPins) <-> invalid_shape pins.
Proof.
  unfold normalise_pins, invalid_shape; split.
  - intros H.
    apply bind_err in H as [H | (pins' & Hp & H)].
    { destruct (lookup_error_not_invalid (probe_units_err _ H)). }
    apply bind_err in H as [H | (units & Hu & H)].
    { destruct (lookup_error_not_invalid (py_iter_err _ H)). }
    apply mapM_err in H as (unit & Hreach & Hunit).
    exists pins', units, unit; repeat split; trivial.
    apply normalise_unit_err in Hunit as [(Hbad & _) | Hl]; [exact Hbad |].
    destruct (lookup_error_not_invalid Hl).
  - intros (pins' & units & unit & Hp & Hu & Hreach & Hbad).
    rewrite Hp; cbn [bind]; rewrite Hu; cbn [bind].
    apply mapM_err; exists unit; split; [exact Hreach |].
    apply normalise_unit_bad_length; exact Hbad.
Qed.

(** Every other exception of [normalise_pins] is an indexing error. *)
Lemma normalise_pins_err (pins : yaml) (e : pyerr) :
  normalise_pins pins = Err e -> e = ValueError InvalidPins \/ lookup_error e.
Proof.
  unfold normalise_pins; intros H.
  apply bind_err in H as [H | (pins' & Hp & H)]; [right; exact (probe_units_err _ H) |].
  apply bind_err in H as [H | (units & Hu & H)]; [right; exact (py_iter_err _ H) |].
  apply mapM_err in H as (unit & _ & Hunit).
  apply normalise_unit_err in Hunit as [(_ & ->) | Hl]; auto.
Qed.

(* ------------------------------------------------------------------ *)
(** ** Loops that extend [out] *)

Section Appending.

Variable A : Type.
Variable f : A -> result (list string).

(** [for a in l: out += f(a)] *)
Let extend (out : list string) (a : A) : result (list string) :=
  ls <- f a ;; Ok (out ++ ls)%list.

Lemma foldM_extend_ok (l : list A) (out res : list string) :
  foldM extend l out = Ok res ->
  exists blocks,
    Forall2 (fun a block => f a = Ok block) l blocks /\
    res = (out ++ List.concat blocks)%list.
Proof.
  revert out; induction l as [| a l IH]; simpl; intros out H.
  - inv_ok H; exists []; split; [constructor | rewrite app_nil_r; reflexivity].
  - inv_bind H as out' Hout'; unfold extend in Hout'.
    inv_bind Hout' as ls Hls; inv_ok Hout'.
    destruct (IH _ H) as (blocks & Hall & ->).
    exists (ls :: blocks); split; [constructor; assumption |].
    simpl; rewrite app_assoc; reflexivity.
Qed.

Lemma foldM_extend_err (done rest : list A) (a : A) (out : list string) (e : pyerr) :
  Forall (fun d => exists ls, f d = Ok ls) done ->
  f a = Err e ->
  foldM extend (done ++ a :: rest)%list out = Err e.
Proof.
  intros Hdone Ha; revert out; induction Hdone as [| d done (ls & Hd) _ IH]; intros out.
  - simpl; unfold extend; rewrite Ha; reflexivity.
  - simpl; unfold extend; rewrite Hd; cbn [bind]; apply IH.
Qed.

End Appending.

(* ------------------------------------------------------------------ *)
(** ** Exceptions of [normalise_pins] in [library] *)

Lemma library_elm_normalise_err (elm : conf) (pins : yaml) (e : pyerr) :
  conf_pins elm = Some pins -> normalise_pins pins = Err e ->
  library_elm elm = Err e.
Proof.
  intros Hp He; unfold library_elm; rewrite Hp; cbn [getitem bind].
  rewrite He; reflexivity.
Qed.

Lemma library_err (done rest : list conf) (elm : conf) (e : pyerr) :
  Forall (fun d => exists ls, library_elm d = Ok ls) done ->
  library_elm elm = Err e ->
  library (Many (done ++ elm :: rest)) = Err e.
Proof.
  intros Hdone He; unfold library; cbn [conf_list].
  erewrite foldM_extend_err; [reflexivity | exact Hdone | exact He].
Qed.

(** The error clause as the design document states it: whatever
    [normalise_pins] raises is the malformed-pins error. *)
Definition malformed_claim (pins : yaml) : Prop :=
  forall e, normalise_pins pins = Err e -> e = ValueError InvalidPins.

(** One unit with pins on the right only, its left side written as an
    empty list. *)
Definition empty_left_list : yaml := YList [YList []; yaml_of_side [[pin_A; pin_B]]].

(** There the probe [pins[0][0][0]] raises [IndexError]. *)
Lemma malformed_claim_fails : ~ malformed_claim empty_left_list.
Proof.
  intros H; specialize (H IndexError eq_refl); discriminate H.
Qed.

(* ------------------------------------------------------------------ *)
(** ** Units as they are written *)

Lemma normalise_unit_form (unit : unit_pins) :
  unit_splittable unit -> normalise_unit (yaml_of_unit unit) = Ok (yaml_sides unit).
Proof.
  destruct unit as [l r]; intros H.
  destruct l as [| [| pl gl] l'], r as [| gr r']; simpl in H;
    try reflexivity; contradiction H; reflexivity.
Qed.

Lemma mapM_map_ok {A B C : Type} (f : B -> result C) (g : A -> B) (h : A -> C)
    (l : list A) :
  Forall (fun a => f (g a) = Ok (h a)) l -> mapM f (map g l) = Ok (map h l).
Proof.
  induction 1 as [| a l Ha _ IH]; simpl; [reflexivity |].
  rewrite Ha; cbn [bind]; rewrite IH; reflexivity.
Qed.

(** On a list that starts with a unit in one of the three forms the
    probe finds no text: the list is taken as it is. *)
Lemma probe_units_list (unit : unit_pins) (entries : list yaml) :
  unit_probed unit ->
  probe_units (YList (yaml_of_unit unit :: entries))
  = Ok (YList (yaml_of_unit unit :: entries)).
Proof.
  destruct unit as [l r]; intros Hprobe.
  destruct l as [| [| [name num t] gl] l'], r as [| gr r']; simpl in Hprobe;
    try reflexivity; contradiction Hprobe; reflexivity.
Qed.

(** [pins] is a list of units, each written in one of the three
    forms, on the first of which the probe succeeds. *)
Definition accepted_forms (pins : yaml) : Prop :=
  exists unit units,
    pins = YList (map yaml_of_unit (unit :: units)) /\
    unit_probed unit /\ Forall unit_splittable (unit :: units).

(** [pins] matches none of the three forms: a list of units in which
    the first entry that is not a unit in one of the forms has a number
    of sides other than 1 and 2; or a single unit, its first pin named
    by a text, written with three sides or more. *)
Definition refused_form (pins : yaml) : Prop :=
  (exists unit done sides rest,
     pins = YList (map yaml_of_unit (unit :: done) ++ YList sides :: rest)%list /\
     unit_probed unit /\ Forall unit_splittable (unit :: done) /\
     List.length sides <> 1%nat /\ List.length sides <> 2%nat) \/
  (exists left_pins p others,
     pins = YList (yaml_of_side left_pins :: others) /\
     first_pin left_pins = Some p /\ str_name p /\ (2 <= List.length others)%nat).

Lemma normalise_pins_accepted (pins : yaml) :
  accepted_forms pins -> exists units, normalise_pins pins = Ok units.
Proof.
  intros (unit & units & -> & Hprobe & Hall); unfold normalise_pins.
  cbn [map]; rewrite probe_units_list by exact Hprobe; cbn [bind py_iter].
  exists (map yaml_sides (unit :: units)).
  change (yaml_of_unit unit :: map yaml_of_unit units)
    with (map yaml_of_unit (unit :: units)).
  apply (mapM_map_ok normalise_unit yaml_of_unit yaml_sides).
  eapply Forall_impl; [| exact Hall].
  intros u; apply normalise_unit_form.
Qed.

Lemma normalise_pins_refused (pins : yaml) :
  refused_form pins -> normalise_pins pins = Err (ValueError InvalidPins).
Proof.
  intros [(unit & done & sides & rest & -> & Hprobe & Hall & H1 & H2)
         | (left_pins & p & others & -> & Hp & (s & Hs) & Hlen)];
    unfold normalise_pins.
  - cbn [map app]; rewrite probe_units_list by exact Hprobe; cbn [bind py_iter].
    apply mapM_err; exists (YList sides); split.
    + exists (map yaml_of_unit (unit :: done)), rest, (map yaml_sides (unit :: done)).
      split; [reflexivity |].
      change (yaml_of_unit unit :: map yaml_of_unit done)
        with (map yaml_of_unit (unit :: done)).
      apply (mapM_map_ok normalise_unit yaml_of_unit yaml_sides).
      eapply Forall_impl; [| exact Hall].
      intros u; apply normalise_unit_form.
    + apply normalise_unit_bad_length; exists (List.length sides); auto.
  - destruct left_pins as [| [| q grp] groups]; simpl in Hp; try discriminate Hp.
    inv_ok Hp; destruct p as [name num t]; simpl in Hs; subst name.
    destruct others as [| o1 [| o2 others]]; simpl in Hlen; try lia.
    reflexivity.
Qed.

(** C7 (as amended). When [normalise_pins] raises on the pins of a
    component, the exception is ["Invalid pins"] exactly when the probe
    of the shape succeeds and the first unit that is not normalised has
    a length other than 1 and 2: so it is for pins that match none of
    the three forms, and pins written in the three forms are not
    refused.  Every other exception comes from the indexing: an
    [IndexError], a [TypeError], or the [KeyError] of 0 or 1 on a
    mapping.  In all cases the exception leaves [library] and no text
    is returned, for a single component and for a list in which the
    components before it were assembled. *)
Theorem malformed_pins_error (elm : conf) (pins : yaml) (e : pyerr) :
  conf_pins elm = Some pins ->
  normalise_pins pins = Err e ->
  (e = ValueError InvalidPins <-> invalid_shape pins) /\
  (refused_form pins -> e = ValueError InvalidPins) /\
  ~ accepted_forms pins /\
  (e = ValueError InvalidPins \/ e = IndexError \/ e = TypeError \/
   e = KeyError "0" \/ e = KeyError "1") /\
  library (One elm) = Err e /\
  (forall done rest,
     Forall (fun d => exists ls, library_elm d = Ok ls) done ->
     library (Many (done ++ elm :: rest)) = Err e).
Proof.
  intros Hp He.
  pose proof (library_elm_normalise_err elm Hp He) as Hl.
  split; [split |]; [| | split; [| split; [| split; [| split]]]].
  - intros ->; apply normalise_pins_invalid_iff; exact He.
  - intros H; apply normalise_pins_invalid_iff in H; congruence.
  - intros H; apply normalise_pins_refused in H; congruence.
  - intros H; apply normalise_pins_accepted in H as (units & H); congruence.
  - exact (normalise_pins_err _ He).
  - apply (@library_err [] [] elm e); [constructor | exact Hl].
  - intros done rest Hdone; apply library_err; assumption.
Qed.

(** A unit written with three sides. *)
Definition three_sides : yaml :=
  YList [yaml_of_side [[pin_A]]; yaml_of_side [[pin_B]]; yaml_of_side [[pin_A]]].

Definition conf_three_sides : conf :=
  Conf (Some (SStr "U")) None None None None None (Some three_sides).

(** A pin written as a mapping, in a unit with pins on the left. *)
Definition pin_as_mapping : yaml :=
  YList [YList [YList [YMap [(YStr "name", YStr "A"); (YStr "num", YInt 1);
                             (YStr "type", YStr "in")]]]].

Example pin_as_mapping_raises :
  normalise_pins pin_as_mapping = Err (KeyError "0").
Proof.
  reflexivity.
Qed.

(** A mapping with the key 0 is indexed like a list of one element:
    the sides of a unit under the key 0 are read as that unit. *)
Example mapping_keyed_by_zero :
  (normalise_pins (YMap [(YInt 0, yaml_of_side [[pin_A]])])
   = Ok [(yaml_of_side [[pin_A]], YList [])]) /\
  (py_index (YMap [(YBool false, YStr "a"); (YAtom "1.0" (Some 1), YStr "b")]) 1
   = Ok (YStr "b")) /\
  (py_index (YMap [(YStr "0", YStr "a")]) 0 = Err (KeyError "0")).
Proof.
  repeat split.
Qed.

(* ------------------------------------------------------------------ *)
(** ** One unit with pins on the left only *)

(** The normalisation of a single unit given by its left groups, as
    the design document states it: one unit, the groups on the left in
    their order, nothing on the right. *)
Definition single_left_claim (groups : side) : Prop :=
  normalise_pins (YList [yaml_of_side groups])
  = Ok [(yaml_of_side groups, YList [])].

(** It holds when the first pin of the first group is named by a
    text. *)
Lemma normalise_single_left (s : string) (num : scalar) (t : string)
    (grp : group) (groups : side) :
  single_left_claim ((Pin (SStr s) num t :: grp) :: groups).
Proof.
  reflexivity.
Qed.

(** A pin named by the integer 1. *)
Definition pin_1 : pin := Pin (SInt 1) (SInt 1) "in".

(** C4 (defect of the code). With a first pin named by an integer the
    structure is not recognised as one unit: the list of groups is
    taken for the unit.  Two groups come out as a left and a right
    side, one group comes out with its pins taken for groups, three
    groups raise ["Invalid pins"]; and [geometry] raises [TypeError] on
    an integer name. *)
Theorem normalise_integer_name :
  ~ single_left_claim [[pin_1]; [pin_B]] /\
  normalise_pins (YList [yaml_of_side [[pin_1]; [pin_B]]])
    = Ok [(yaml_of_group [pin_1], yaml_of_group [pin_B])] /\
  normalise_pins (YList [yaml_of_side [[pin_1]]])
    = Ok [(yaml_of_group [pin_1], YList [])] /\
  normalise_pins (YList [yaml_of_side [[pin_1]; [pin_A]; [pin_B]]])
    = Err (ValueError InvalidPins) /\
  geometry ([[pin_1]], []) 1 = Err TypeError.
Proof.
  split; [intros H; discriminate H | repeat split].
Qed.

(* ================================================================== *)
(** * The header line of a component *)
(* ================================================================== *)

Lemma py_iter_nonempty (v x : yaml) (l : list yaml) :
  py_index v 0 = Ok x -> py_iter v = Ok l -> l <> [].
Proof.
  destruct v as [| b | z | text w | s | l' | items]; simpl; try discriminate.
  - destruct s; simpl; [discriminate |].
    intros _ H; inv_ok H; discriminate.
  - destruct l'; simpl; [discriminate |].
    intros _ H; inv_ok H; discriminate.
  - destruct items; simpl; [discriminate |].
    intros _ H; inv_ok H; discriminate.
Qed.

(** [normalise_pins] never returns an empty list of units. *)
Lemma normalise_pins_nonempty (pins : yaml) (units : list (yaml * yaml)) :
  normalise_pins pins = Ok units -> (1 <= List.length units)%nat.
Proof.
  unfold normalise_pins; intros H.
  inv_bind H as pins' Hp; inv_bind H as us Hus.
  rewrite (mapM_length _ _ H).
  assert (Hne : us <> []).
  { unfold probe_units in Hp.
    inv_bind Hp as first Hfirst; inv_bind Hp as first' Hfirst'; inv_bind Hp as f0 Hf0.
    inv_ok Hp; destruct (is_str f0).
    - simpl in Hus; inv_ok Hus; discriminate.
    - simpl in Hfirst; inv_bind Hfirst as x Hx.
      exact (py_iter_nonempty _ Hx Hus). }
  destruct us; [contradiction Hne; reflexivity | simpl; lia].
Qed.

(** The two lines of the head of [library]'s text, and its last. *)
Definition library_header : list string :=
  ["EESchema-LIBRARY Version 2.3"; "#encoding utf-8"].
Definition library_footer : string := "#" ++ nl ++ "#End Library" ++ nl.

(** The closing banner is two lines, each ended by a line feed. *)
Example library_footer_text :
  library_footer = String "#" (String "010" ("#End Library" ++ String "010" "")).
Proof.
  reflexivity.
Qed.

(** The text [library] returns is made of the blocks of the
    components, in their order. *)
Lemma library_ok (c : conf_input) (text : string) :
  library c = Ok text ->
  exists blocks,
    Forall2 (fun elm block => library_elm elm = Ok block) (conf_list c) blocks /\
    text = String.concat nl
             (library_header ++ List.concat blocks ++ [library_footer])%list.
Proof.
  unfold library; intros H; inv_bind H as out Hout; inv_ok H.
  apply foldM_extend_ok in Hout as (blocks & Hall & ->).
  exists blocks; split; [exact Hall |].
  rewrite <- app_assoc; reflexivity.
Qed.

(** The second line of the block of a component is its [DEF] line,
    with the flag [F] for one unit and [L] for more. *)
Lemma library_elm_def_line (elm : conf) (block : list string) :
  library_elm elm = Ok block ->
  exists pins units name n,
    conf_pins elm = Some pins /\ normalise_pins pins = Ok units /\
    conf_name elm = Some name /\ longest_num_raw units = Ok n /\
    nth_error block 1
    = Some ("DEF " ++ pystr name ++ " "
                   ++ pystr (get (conf_designator elm) (SStr "IC")) ++ " 0 40 Y Y "
                   ++ str_of_Z (Z.of_nat (List.length units)) ++ " "
                   ++ (if (1 <? List.length units)%nat then "L" else "F") ++ " N").
Proof.
  unfold library_elm; intros H.
  inv_bind H as pins Hpins; inv_bind H as units Hunits; inv_bind H as name Hname.
  cbv zeta in H; inv_bind H as fs Hfs; inv_bind H as ds Hds; inv_ok H.
  destruct (conf_pins elm) as [pins' |]; inv_ok Hpins.
  destruct (conf_name elm) as [name' |]; inv_ok Hname.
  unfold fields_raw in Hfs; inv_bind Hfs as n Hn.
  exists pins, units, name, n; repeat split; trivial.
  pose proof (normalise_pins_nonempty _ Hunits) as Hlen.
  cbn [app nth_error]; unfold def_line; do 8 f_equal.
  destruct (Nat.eqb_spec (List.length units) 1) as [-> | H1]; [reflexivity |].
  destruct (Nat.ltb_spec 1 (List.length units)); [reflexivity | lia].
Qed.

(** How the units [units] of a component are written under [pins]:
    a single unit may stand on its own, in one of the three forms;
    otherwise [pins] lists the units, each in one of the forms. *)
Definition written (units : list unit_pins) (pins : yaml) : Prop :=
  (exists unit, units = [unit] /\ pins = yaml_of_unit unit) \/
  pins = YList (map yaml_of_unit units).

(** On a list of units in the three forms the probe finds no text. *)
Lemma probe_units_listed (unit : unit_pins) (entries : list yaml) (pins' : yaml) :
  probe_units (YList (yaml_of_unit unit :: entries)) = Ok pins' ->
  pins' = YList (yaml_of_unit unit :: entries).
Proof.
  destruct unit as [l r].
  destruct l as [| [| [name num t] gl] l'], r as [| [| [name' num' t'] gr] r'];
    simpl; intros H; try discriminate H; inv_ok H; reflexivity.
Qed.

(** A single unit the first pin of which is named by an integer is
    taken for a list of units; when that list has two entries, the
    first is no unit and [longest_num] raises on it. *)
Lemma written_units_count (us : list unit_pins) (pins : yaml)
    (units : list (yaml * yaml)) (n : Z) :
  written us pins -> normalise_pins pins = Ok units -> longest_num_raw units = Ok n ->
  List.length units = List.length us.
Proof.
  intros [(unit & -> & ->) | ->] Hn Hl.
  - destruct unit as [l r].
    destruct l as [| [| [[s | z] num t] gl] l'],
             r as [| [| [[s' | z'] num' t'] gr] r'];
      try (vm_compute in Hn; discriminate Hn);
      try (apply Ok_inj in Hn; subst units; reflexivity);
      unfold normalise_pins in Hn;
      match type of Hn with
      | bind (probe_units ?v) _ = _ =>
          let H := fresh in
          assert (H : probe_units v = Ok v) by reflexivity;
          rewrite H in Hn; clear H; cbn [bind py_iter yaml_of_unit] in Hn
      end;
      try (apply mapM_length in Hn; exact Hn);
      cbn [mapM] in Hn; inv_bind Hn as u0 Hu0; inv_bind Hn as rest Hrest; inv_ok Hn;
      try (inv_ok Hu0; discriminate Hl);
      destruct l' as [| g1 [| g2 l']]; inv_ok Hu0; discriminate Hl.
  - unfold normalise_pins in Hn; inv_bind Hn as pins' Hp.
    destruct us as [| unit us]; [discriminate Hp |].
    cbn [map] in Hp; apply probe_units_listed in Hp; subst pins'.
    cbn [py_iter] in Hn; apply mapM_length in Hn.
    rewrite Hn; cbn [List.length]; rewrite length_map; reflexivity.
Qed.

(** [block] carries on its second line the [DEF] line of [elm]: the
    name, the designator, the number of units and the flag, locked
    ([L]) exactly when that number is more than one and free ([F])
    exactly when it is one.  The number is the number of units
    [normalise_pins] returns, and the number of units written under
    [pins]. *)
Definition def_line_flagged (elm : conf) (block : list string) : Prop :=
  exists name locked n_units,
    conf_name elm = Some name /\
    nth_error block 1
    = Some ("DEF " ++ pystr name ++ " "
                   ++ pystr (get (conf_designator elm) (SStr "IC")) ++ " 0 40 Y Y "
                   ++ str_of_Z (Z.of_nat n_units) ++ " " ++ locked ++ " N") /\
    (locked = "L" <-> (1 < n_units)%nat) /\
    (locked = "F" <-> n_units = 1%nat) /\
    (exists pins units,
       conf_pins elm = Some pins /\ normalise_pins pins = Ok units /\
       List.length units = n_units) /\
    (forall pins units,
       conf_pins elm = Some pins -> written units pins -> List.length units = n_units).

(** C9. Locked flag: in the text [library] returns, every component
    has a block whose [DEF] line carries the flag [L] if and only if
    the component has more than one unit, and [F] when it has one. *)
Theorem def_line_locked_flag (c : conf_input) (text : string) :
  library c = Ok text ->
  exists blocks,
    text = String.concat nl
             (library_header ++ List.concat blocks ++ [library_footer])%list /\
    Forall2 def_line_flagged (conf_list c) blocks.
Proof.
  intros H; apply library_ok in H as (blocks & Hall & ->).
  exists blocks; split; [reflexivity |].
  eapply Forall2_impl; [| exact Hall].
  intros elm block Hb; cbv beta in Hb.
  apply library_elm_def_line in Hb as (pins & units & name & n & Hp & Hu & Hn & Hl & Hd).
  pose proof (normalise_pins_nonempty _ Hu) as Hlen.
  exists name, (if (1 <? List.length units)%nat then "L" else "F"), (List.length units).
  split; [exact Hn |]; split; [exact Hd |].
  split; [| split; [| split]].
  - destruct (Nat.ltb_spec 1 (List.length units)); split; intros Hf;
      try discriminate Hf; try lia; reflexivity.
  - destruct (Nat.ltb_spec 1 (List.length units)); split; intros Hf;
      try discriminate Hf; try lia; reflexivity.
  - exists pins, units; auto.
  - intros pins' us Hp' Hw; rewrite Hp in Hp'; inv_ok Hp'.
    symmetry; exact (written_units_count Hw Hu Hl).
Qed.

(** Scenario B of the design document: two units with the same pins. *)
Definition conf_two_units : conf :=
  Conf (Some (SStr "GATE")) (Some (SStr "U")) None None None None
       (Some (YList [YList [yaml_of_side [[pin_A; pin_B]]];
                     YList [yaml_of_side [[pin_A; pin_B]]]])).

(** Scenario A: one unit, written on its own. *)
Definition conf_one_unit : conf :=
  Conf (Some (SStr "REG")) None None None None None
       (Some (YList [yaml_of_side [[pin_A; pin_B]]])).

(** The header lines of scenarios B and A. *)
Example def_line_two_units :
  exists block,
    library_elm conf_two_units = Ok block /\
    nth_error block 1 = Some "DEF GATE U 0 40 Y Y 2 L N".
Proof.
  eexists; split; [vm_compute; reflexivity | reflexivity].
Qed.

Example def_line_one_unit :
  exists block,
    library_elm conf_one_unit = Ok block /\
    nth_error block 1 = Some "DEF REG IC 0 40 Y Y 1 F N".
Proof.
  eexists; split; [vm_compute; reflexivity | reflexivity].
Qed.

(** Pins that are not as the design document describes them go
    through [library] as they are: a number [None] is printed, and a
    name that is an integer, which makes the groups of the unit be
    taken for units, ends the call where a number is read in that
    name. *)
Definition conf_number_none : conf :=
  Conf (Some (SStr "U")) None None None None None
       (Some (YList [YList [YList [YList [YStr "A"; YNone; YStr "in"]]]])).

Definition conf_integer_name : conf :=
  Conf (Some (SStr "U")) None None None None None
       (Some (YList [yaml_of_side [[pin_1]]])).

Example library_number_none :
  exists block,
    library_elm conf_number_none = Ok block /\
    nth_error block 1 = Some "DEF U IC 0 40 Y Y 1 F N" /\
    nth_error block 7 = Some "S -100 50 100 -50 0 1 0 f" /\
    nth_error block 8 = Some "X A None -300 0 200 R 50 50 0 0 I".
Proof.
  eexists; split; [vm_compute; reflexivity | repeat split].
Qed.

Example library_integer_name :
  library (One conf_integer_name) = Err TypeError.
Proof.
  reflexivity.
Qed.

(* ================================================================== *)
(** * Properties of [fields] *)
(* ================================================================== *)

Lemma nth_error_enumerate_from {A : Type} (l : list A) (start : Z) (k : nat) (a : A) :
  nth_error l k = Some a ->
  nth_error (enumerate_from start l) k = Some (start + Z.of_nat k, a).
Proof.
  revert start k; induction l as [| x l IH]; intros start k H.
  - destruct k; discriminate H.
  - destruct k as [| k]; simpl in *.
    + inv_ok H; do 2 f_equal; lia.
    + rewrite (IH _ _ H); do 2 f_equal; lia.
Qed.

Lemma length_enumerate_from {A : Type} (l : list A) (start : Z) :
  List.length (enumerate_from start l) = List.length l.
Proof.
  revert start; induction l as [| x l IH]; simpl; intros start; [| rewrite IH]; reflexivity.
Qed.

(** A loop [for e in l: out.append(h(e))]. *)
Lemma fold_left_append {A : Type} (body : list string -> A -> list string)
    (h : A -> string) :
  (forall out e, body out e = (out ++ [h e])%list) ->
  forall l out, fold_left body l out = (out ++ map h l)%list.
Proof.
  intros Hbody; induction l as [| e l IH]; simpl; intros out.
  - rewrite app_nil_r; reflexivity.
  - rewrite IH, Hbody, <- app_assoc; reflexivity.
Qed.

(** The text of an optional field: empty when the key is absent. *)
Definition optional_text (v : option scalar) : string :=
  match v with
  | Some x => pystr x
  | None => ""
  end.

Lemma append_assoc (a b c : string) : ((a ++ b) ++ c = a ++ (b ++ c))%string.
Proof.
  induction a as [| ch a IH]; simpl; [| rewrite IH]; reflexivity.
Qed.

(** The text of a field line and of the line of an order code. *)
Lemma field_line_text (idx : Z) (text : string) (x y : Z) (vis : string) :
  field_line idx text x y vis
  = "F" ++ str_of_Z idx ++ " " ++ dq ++ text ++ dq ++ " "
        ++ str_of_Z x ++ " " ++ str_of_Z y ++ " 50 H " ++ vis ++ " L CNN".
Proof.
  reflexivity.
Qed.

Lemma ordercode_line_text (idx : Z) (text : string) (x y : Z) (supplier : scalar) :
  ordercode_line idx text x y supplier
  = "F" ++ str_of_Z idx ++ " " ++ dq ++ text ++ dq ++ " "
        ++ str_of_Z x ++ " " ++ str_of_Z y ++ " 50 H I L CNN "
        ++ dq ++ pystr supplier ++ dq.
Proof.
  unfold ordercode_line, field_line, quoted; rewrite !append_assoc; reflexivity.
Qed.

(** C5. Field indices: the lines [fields] returns are the fields 0, 1,
    2 and 3 in that order (2 and 3 with an empty text when there is no
    footprint or no datasheet), followed by one line per order code, at
    the indices 4, 5, ... in the order of the input, each with its code
    as text and its supplier as a trailing tag; without order codes
    there are exactly the four lines.  The lines are given by their
    text: [F0 "designator" x y 50 H V L CNN] and so on, [dq] being the
    double quote. *)
Theorem fields_indices (c : conf) (units : list unit_pins) (out : list string) :
  fields c units = Ok out ->
  exists x y name,
    conf_name c = Some name /\
    List.length out = (4 + List.length (get (conf_ordercodes c) []))%nat /\
    nth_error out 0
      = Some ("F0 " ++ dq ++ pystr (get (conf_designator c) (SStr "IC")) ++ dq ++ " "
                    ++ str_of_Z x ++ " " ++ str_of_Z y ++ " 50 H V L CNN") /\
    nth_error out 1
      = Some ("F1 " ++ dq ++ pystr name ++ dq ++ " "
                    ++ str_of_Z x ++ " " ++ str_of_Z (- y) ++ " 50 H V L CNN") /\
    nth_error out 2
      = Some ("F2 " ++ dq ++ optional_text (conf_footprint c) ++ dq ++ " "
                    ++ str_of_Z x ++ " " ++ str_of_Z (- y - 100) ++ " 50 H I L CNN") /\
    nth_error out 3
      = Some ("F3 " ++ dq ++ optional_text (conf_datasheet c) ++ dq ++ " "
                    ++ str_of_Z x ++ " " ++ str_of_Z (- y - 200) ++ " 50 H I L CNN") /\
    forall k supplier code,
      nth_error (get (conf_ordercodes c) []) k = Some (supplier, code) ->
      nth_error out (4 + k)
      = Some ("F" ++ str_of_Z (4 + Z.of_nat k) ++ " " ++ dq ++ pystr code ++ dq ++ " "
                  ++ str_of_Z x ++ " " ++ str_of_Z (- y - (300 + Z.of_nat k * 100))
                  ++ " 50 H I L CNN " ++ dq ++ pystr supplier ++ dq).
Proof.
  unfold fields; intros H.
  inv_bind H as n Hn; inv_bind H as geoms Hgeoms.
  inv_bind H as width Hwidth; inv_bind H as height Hheight.
  cbv zeta in H; inv_bind H as name Hname.
  destruct (conf_name c) as [name' |]; inv_ok Hname.
  set (x := - width / 2) in *; set (y := height / 2 + 50) in *.
  exists x, y, name; split; [reflexivity |].
  rewrite (@fold_left_append _ _
             (fun entry : Z * (scalar * scalar) =>
                ordercode_line (fst entry + 4) (pystr (snd (snd entry))) x
                               (- y - (300 + fst entry * 100)) (fst (snd entry)))) in H;
    [| intros o [idx [supplier code]]; reflexivity].
  apply Ok_inj in H; subst out.
  set (ocs := get (conf_ordercodes c) []).
  match goal with
  | |- context [(?pre ++ map ?h ?l)%list] =>
      replace (pre ++ map h l)%list
        with (field_line 0 (pystr (get (conf_designator c) (SStr "IC"))) x y "V"
              :: field_line 1 (pystr name) x (- y) "V"
              :: field_line 2 (optional_text (conf_footprint c)) x (- y - 100) "I"
              :: field_line 3 (optional_text (conf_datasheet c)) x (- y - 200) "I"
              :: map h l)
        by (destruct (conf_footprint c), (conf_datasheet c); reflexivity)
  end.
  split; [| split; [| split; [| split; [| split]]]]; try reflexivity.
  - simpl; rewrite length_map; unfold enumerate; rewrite length_enumerate_from; reflexivity.
  - intros k supplier code Hk.
    change (4 + k)%nat with (S (S (S (S k)))); cbn [nth_error].
    unfold enumerate; rewrite nth_error_map.
    rewrite (nth_error_enumerate_from _ 0 _ Hk); cbn [option_map fst snd].
    rewrite ordercode_line_text.
    replace (0 + Z.of_nat k + 4) with (4 + Z.of_nat k) by lia.
    replace (300 + (0 + Z.of_nat k) * 100) with (300 + Z.of_nat k * 100) by lia.
    reflexivity.
Qed.

(** Units on which [geometry] returns: no empty group, text names. *)
Definition unit_well_formed (unit : unit_pins) : Prop :=
  (groups_nonempty (fst unit) /\ names_are_str (fst unit)) /\
  (groups_nonempty (snd unit) /\ names_are_str (snd unit)).

(** On a component with a name and at least one unit, all of them well
    formed, [fields] returns. *)
Lemma fields_returns (c : conf) (units : list unit_pins) (name : scalar) :
  units <> [] -> Forall unit_well_formed units -> conf_name c = Some name ->
  exists out, fields c units = Ok out.
Proof.
  intros Hne Hwf Hname; unfold fields.
  rewrite longest_num_total; [cbn [bind] | exact Hne |].
  2: { eapply Forall_impl; [| exact Hwf]; intros u ((Hl & _) & (Hr & _)); split; assumption. }
  set (n := max_over num_width (flat_map unit_all_pins units)).
  destruct (@mapM_ok_all _ _ (fun unit => geometry unit n) units) as (geoms & Hgeoms).
  { intros [l r] Hin; rewrite Forall_forall in Hwf.
    destruct (Hwf _ Hin) as ((Hl & Hls) & (Hr & Hrs)); simpl in *.
    destruct (geometry_total n Hl Hls Hr Hrs) as (w & h & len & Hg).
    exists (w, h, len); exact Hg. }
  rewrite Hgeoms; cbn [bind].
  pose proof (mapM_length _ _ Hgeoms) as Hlen.
  destruct geoms as [| g geoms].
  { destruct units; [contradiction Hne; reflexivity | discriminate Hlen]. }
  cbn [map py_max bind]; rewrite Hname; cbn [getitem bind]; eauto.
Qed.

(** Scenario C of the design document: two order codes. *)
Definition conf_order_codes : conf :=
  Conf (Some (SStr "REG")) None None (Some (SStr "reg.pdf"))
       (Some [(SStr "Farnell", SInt 1234567); (SStr "RS", SStr "123-4567")])
       None None.

(** The fields of scenario C on the unit of scenario A, the box of
    which is 200 wide and 300 high. *)
Lemma fields_indices_witness :
  exists out,
    fields conf_order_codes [scenario_A] = Ok out /\
    (exists x y name,
       conf_name conf_order_codes = Some name /\
       List.length out = (4 + 2)%nat /\
       nth_error out 0
         = Some ("F0 " ++ dq ++ "IC" ++ dq ++ " "
                       ++ str_of_Z x ++ " " ++ str_of_Z y ++ " 50 H V L CNN") /\
       nth_error out 1
         = Some ("F1 " ++ dq ++ pystr name ++ dq ++ " "
                       ++ str_of_Z x ++ " " ++ str_of_Z (- y) ++ " 50 H V L CNN") /\
       nth_error out 2
         = Some ("F2 " ++ dq ++ "" ++ dq ++ " "
                       ++ str_of_Z x ++ " " ++ str_of_Z (- y - 100) ++ " 50 H I L CNN") /\
       nth_error out 3
         = Some ("F3 " ++ dq ++ "reg.pdf" ++ dq ++ " "
                       ++ str_of_Z x ++ " " ++ str_of_Z (- y - 200) ++ " 50 H I L CNN") /\
       forall k supplier code,
         nth_error (get (conf_ordercodes conf_order_codes) []) k = Some (supplier, code) ->
         nth_error out (4 + k)
         = Some ("F" ++ str_of_Z (4 + Z.of_nat k) ++ " " ++ dq ++ pystr code ++ dq ++ " "
                     ++ str_of_Z x ++ " " ++ str_of_Z (- y - (300 + Z.of_nat k * 100))
                     ++ " 50 H I L CNN " ++ dq ++ pystr supplier ++ dq)) /\
    out = [ "F0 " ++ String "034" ("IC" ++ String "034" " -100 200 50 H V L CNN");
            "F1 " ++ String "034" ("REG" ++ String "034" " -100 -200 50 H V L CNN");
            "F2 " ++ String "034" (String "034" " -100 -300 50 H I L CNN");
            "F3 " ++ String "034" ("reg.pdf" ++ String "034" " -100 -400 50 H I L CNN");
            "F4 " ++ String "034" ("1234567" ++ String "034"
                     (" -100 -500 50 H I L CNN " ++ String "034" ("Farnell" ++ String "034" "")));
            "F5 " ++ String "034" ("123-4567" ++ String "034"
                     (" -100 -600 50 H I L CNN " ++ String "034" ("RS" ++ String "034" ""))) ].
Proof.
  eexists; split; [vm_compute; reflexivity |].
  split; [| vm_compute; reflexivity].
  apply (@fields_indices conf_order_codes [scenario_A]).
  vm_compute; reflexivity.
Defined.

(* ================================================================== *)
(** * Properties of [draw_pins] and [draw] *)
(* ================================================================== *)

(** [out] holds one line per pin of [groups], in the order of the
    groups and of the pins in them: the pin [k] of the group [j], which
    has [i] pins before it, is on line [i], at [x] and [i + j] rows
    below [y]. *)
Definition placed (groups : side) (x y : Z) (direction : string)
    (length unit_idx : Z) (out : list string) : Prop :=
  List.length out = List.length (List.concat groups) /\
  forall j k grp p,
    nth_error groups j = Some grp -> nth_error grp k = Some p ->
    let i := (List.length (List.concat (firstn j groups)) + k)%nat in
    exists code,
      pin_types (pin_type p) = Ok code /\
      nth_error out i
      = Some (pin_line (pin_name p) (pin_num p) x (y - 100 * Z.of_nat (i + j))
                       length direction unit_idx code).

Section DrawPins.

Variables (x : Z) (direction : string) (length unit_idx : Z).

Lemma draw_pin_loop (grp : group) (out out' : list string) (y y' : Z) :
  foldM (draw_pin x direction length unit_idx) grp (out, y) = Ok (out', y') ->
  y' = y - 100 * Z.of_nat (List.length grp) /\
  exists lines,
    out' = (out ++ lines)%list /\
    List.length lines = List.length grp /\
    forall k p,
      nth_error grp k = Some p ->
      exists code,
        pin_types (pin_type p) = Ok code /\
        nth_error lines k
        = Some (pin_line (pin_name p) (pin_num p) x (y - 100 * Z.of_nat k)
                         length direction unit_idx code).
Proof.
  revert out y; induction grp as [| q grp IH]; intros out y H.
  - simpl in H; apply Ok_inj in H; inversion H; subst.
    split; [simpl; lia |].
    exists []; rewrite app_nil_r; repeat split.
    intros [| k] p Hk; discriminate Hk.
  - cbn [foldM] in H; inv_bind H as st Hst.
    unfold draw_pin in Hst; inv_bind Hst as code Hcode.
    apply Ok_inj in Hst; subst st.
    destruct (IH _ _ H) as (Hy & lines & -> & Hlen & Hnth).
    split; [rewrite Hy; cbn [List.length]; lia |].
    eexists (_ :: lines); split; [rewrite <- app_assoc; reflexivity |].
    split; [simpl; rewrite Hlen; reflexivity |].
    intros [| k] p Hk; cbn [nth_error] in *.
    + inv_ok Hk; exists code; split; [exact Hcode |].
      do 2 f_equal; lia.
    + destruct (Hnth _ _ Hk) as (c & Hc & Hline).
      exists c; split; [exact Hc |].
      rewrite Hline; do 2 f_equal; lia.
Qed.

Lemma draw_group_loop (groups : side) (out out' : list string) (y y' : Z) :
  foldM (draw_group x direction length unit_idx) groups (out, y) = Ok (out', y') ->
  exists lines,
    out' = (out ++ lines)%list /\ placed groups x y direction length unit_idx lines.
Proof.
  revert out y; induction groups as [| g groups IH]; intros out y H.
  - simpl in H; apply Ok_inj in H; inversion H; subst.
    exists []; rewrite app_nil_r; split; [reflexivity |].
    split; [reflexivity |].
    intros [| j] k grp p Hj; discriminate Hj.
  - cbn [foldM] in H; inv_bind H as st Hst.
    unfold draw_group in Hst; inv_bind Hst as st1 Hst1.
    destruct st1 as [out1 y1]; apply Ok_inj in Hst; subst st.
    apply draw_pin_loop in Hst1 as (Hy1 & lines_g & -> & Hlen_g & Hnth_g).
    destruct (IH _ _ H) as (lines & -> & Hlen & Hnth).
    exists (lines_g ++ lines)%list; split; [rewrite app_assoc; reflexivity |].
    split.
    + cbn [List.concat]; rewrite !length_app, Hlen_g, Hlen; reflexivity.
    + intros [| j] k grp p Hj Hk; cbn [nth_error firstn List.concat] in *.
      * inv_ok Hj.
        destruct (Hnth_g _ _ Hk) as (code & Hcode & Hline).
        exists code; split; [exact Hcode |].
        cbn [List.length Nat.add].
        rewrite nth_error_app1
          by (rewrite Hlen_g; apply nth_error_Some; rewrite Hk; discriminate).
        rewrite Hline; do 2 f_equal; lia.
      * destruct (Hnth _ _ _ _ Hj Hk) as (code & Hcode & Hline); cbv zeta in Hline.
        exists code; split; [exact Hcode |].
        rewrite length_app, <- Nat.add_assoc, <- Hlen_g.
        rewrite nth_error_app2 by lia.
        replace (List.length lines_g
                 + (List.length (List.concat (firstn j groups)) + k)
                 - List.length lines_g)%nat
          with (List.length (List.concat (firstn j groups)) + k)%nat by lia.
        rewrite Hline; do 2 f_equal; lia.
Qed.

(** The lines [draw_pins] returns are the pins placed from [(x, y0)]
    downwards; they depend on nothing but its arguments. *)
Lemma draw_pins_placed (groups : side) (y0 : Z) (out : list string) :
  draw_pins groups x y0 direction length unit_idx = Ok out ->
  placed groups x y0 direction length unit_idx out.
Proof.
  unfold draw_pins; intros H.
  inv_bind H as st Hst; destruct st as [out' y']; apply Ok_inj in H; subst out.
  apply draw_group_loop in Hst as (lines & -> & Hplaced); exact Hplaced.
Qed.

End DrawPins.

(* ------------------------------------------------------------------ *)
(** ** The lines of a unit *)

Lemma foldM_ext {S A : Type} (f g : S -> A -> result S) (l : list A) (s : S) :
  (forall s a, f s a = g s a) -> foldM f l s = foldM g l s.
Proof.
  intros Hfg; revert s; induction l as [| a l IH]; simpl; intros s.
  - reflexivity.
  - rewrite Hfg; destruct (g s a); simpl; [apply IH | reflexivity].
Qed.

(** The width [geometry] returns is a multiple of 100, so that
    [-width//2] is the opposite of [width//2]. *)
Lemma geometry_width_multiple (unit : unit_pins) (n w h len : Z) :
  geometry unit n = Ok (w, h, len) -> w mod 100 = 0.
Proof.
  destruct unit as [left_pins right_pins]; intros H.
  apply geometry_ok in H as (a & b & _ & _ & Hlen & Hw & _).
  cbv zeta in Hw; subst w len.
  apply nudge_multiple; [| apply stub_length_multiple].
  destruct (round_up_to_least ((Z.max a b + 1) * 50) (m := 100)) as (_ & Hm & _); [lia |].
  destruct (truthy left_pins && truthy right_pins); [| exact Hm].
  apply Z.mod_divide in Hm as [q Hq]; [| lia]; rewrite Hq.
  replace (q * 100 * 2) with (2 * q * 100) by lia; apply Z.mod_mul; lia.
Qed.

Lemma opp_half (w : Z) : w mod 100 = 0 -> - w / 2 = - (w / 2).
Proof.
  intros Hw; apply Z.mod_divide in Hw as [q ->]; [| lia].
  replace (- (q * 100)) with ((- q * 50) * 2) by lia.
  replace (q * 100) with ((q * 50) * 2) by lia.
  rewrite !Z.div_mul by lia; lia.
Qed.

Lemma placed_nil (x y : Z) (direction : string) (length unit_idx : Z) :
  placed [] x y direction length unit_idx [].
Proof.
  split; [reflexivity |].
  intros [| j] k grp p Hj; discriminate Hj.
Qed.

(** What [draw] emits for one unit: the box, then the pins of the left
    side pointing right from the left edge moved out by the stub
    length, then the pins of the right side pointing left from the
    mirrored abscissa; both sides start half a row (50) below the top
    edge of the box. *)
Definition unit_drawn (n_units : nat) (n idx : Z) (unit : unit_pins)
    (block : list string) : Prop :=
  let unit_idx := if (1 <? n_units)%nat then idx + 1 else idx in
  exists w h len left_lines right_lines,
    geometry unit n = Ok (w, h, len) /\
    block = (box_line (- w / 2) (h / 2) (w / 2) (- h / 2) unit_idx
             :: left_lines ++ right_lines)%list /\
    placed (fst unit) (- (w / 2) - len) (h / 2 - 50) "R" len unit_idx left_lines /\
    placed (snd unit) (w / 2 + len) (h / 2 - 50) "L" len unit_idx right_lines.

Lemma draw_unit_drawn (n_units : nat) (n idx : Z) (unit : unit_pins)
    (block : list string) :
  draw_unit n_units n idx unit = Ok block -> unit_drawn n_units n idx unit block.
Proof.
  unfold draw_unit, unit_drawn; intros H; cbv zeta in *.
  set (unit_idx := if (1 <? n_units)%nat then idx + 1 else idx) in *.
  inv_bind H as g Hg; destruct g as [[w h] len]; destruct unit as [left_pins right_pins].
  pose proof (geometry_width_multiple _ _ Hg) as Hopp; apply opp_half in Hopp.
  inv_bind H as out1 Hout1; inv_bind H as out2 Hout2; apply Ok_inj in H; subst block.
  rewrite Hopp in Hout1, Hout2.
  replace (- (- (w / 2) - len)) with (w / 2 + len) in Hout2 by lia.
  assert (Hl : exists left_lines,
             out1 = (box_line (- w / 2) (h / 2) (w / 2) (- h / 2) unit_idx
                     :: left_lines)%list /\
             placed left_pins (- (w / 2) - len) (h / 2 - 50) "R" len unit_idx left_lines).
  { destruct left_pins as [| g gs]; cbn [truthy] in Hout1.
    - apply Ok_inj in Hout1; subst out1.
      exists []; split; [rewrite Hopp; reflexivity | apply placed_nil].
    - inv_bind Hout1 as ls Hls; apply Ok_inj in Hout1; subst out1.
      exists ls; split; [rewrite Hopp; reflexivity | apply draw_pins_placed; exact Hls]. }
  destruct Hl as (left_lines & -> & Hleft).
  assert (Hr : exists right_lines,
             out2 = (box_line (- w / 2) (h / 2) (w / 2) (- h / 2) unit_idx
                     :: left_lines ++ right_lines)%list /\
             placed right_pins (w / 2 + len) (h / 2 - 50) "L" len unit_idx right_lines).
  { destruct right_pins as [| g gs]; cbn [truthy] in Hout2.
    - apply Ok_inj in Hout2; subst out2.
      exists []; split; [rewrite app_nil_r; reflexivity | apply placed_nil].
    - inv_bind Hout2 as rs Hrs; apply Ok_inj in Hout2; subst out2.
      exists rs; split; [reflexivity | apply draw_pins_placed; exact Hrs]. }
  destruct Hr as (right_lines & -> & Hright).
  exists w, h, len, left_lines, right_lines.
  split; [exact Hg | split; [reflexivity | split; [exact Hleft | exact Hright]]].
Qed.

(** The start of the left pins as the design document states it: the
    first pin of the left side sits at the top-left corner of the box
    moved outwards by the stub length, that is at
    [(-(w/2) - len, h/2)]. *)
Definition corner_start_claim (unit : unit_pins) (n : Z) : Prop :=
  forall w h len block p grp groups,
    geometry unit n = Ok (w, h, len) ->
    fst unit = (p :: grp) :: groups ->
    draw_unit 1 n 0 unit = Ok block ->
    exists code,
      nth_error block 1
      = Some (pin_line (pin_name p) (pin_num p) (- (w / 2) - len) (h / 2)
                       len "R" 0 code).

(** In scenario A the box is 300 high, its top edge is at 150, and the
    first pin is drawn at 100. *)
Lemma corner_start_claim_fails : ~ corner_start_claim scenario_A 1.
Proof.
  intros H.
  destruct (H 200 300 100 _ pin_A [pin_B] [] eq_refl eq_refl eq_refl) as (code & Hc).
  vm_compute in Hc; discriminate Hc.
Qed.

Example draw_scenario_A :
  draw [scenario_A]
  = Ok ["DRAW"; "S -100 150 100 -150 0 1 0 f";
        "X A 1 -200 100 100 R 50 50 0 0 I";
        "X B 2 -200 0 100 R 50 50 0 0 I"; "ENDDRAW"].
Proof. reflexivity. Qed.

(** C6 (as amended). Pin placement and order: for every unit, [draw]
    emits the box and then the pins of the left side, pointing right,
    at the left edge of the box moved outwards by the stub length,
    the first of them half a row (50) below the top edge, each next pin
    100 lower and one more row of 100 after each group; the pins keep
    the order of the input inside a group and the groups theirs; the
    pins of the right side follow, pointing left, at the mirrored
    abscissa and from the same first row, whatever the left side
    holds. *)
Theorem draw_pin_placement (units : list unit_pins) (out : list string) :
  draw units = Ok out ->
  exists n blocks,
    longest_num units = Ok n /\
    out = ("DRAW" :: List.concat blocks ++ ["ENDDRAW"])%list /\
    Forall2
      (fun (entry : Z * unit_pins) block =>
         unit_drawn (List.length units) n (fst entry) (snd entry) block)
      (enumerate units) blocks.
Proof.
  unfold draw; intros H.
  inv_bind H as n Hn; inv_bind H as out' Hout'; apply Ok_inj in H; subst out.
  rewrite (@foldM_ext _ _ _
             (fun out (entry : Z * unit_pins) =>
                ls <- (fun e : Z * unit_pins =>
                         draw_unit (List.length units) n (fst e) (snd e)) entry ;;
                Ok (out ++ ls)%list)) in Hout'
    by (intros o [idx u]; reflexivity).
  apply foldM_extend_ok in Hout' as (blocks & Hall & ->).
  exists n, blocks; split; [exact Hn |]; split; [reflexivity |].
  eapply Forall2_impl; [| exact Hall].
  intros entry block Hb; apply draw_unit_drawn; exact Hb.
Qed.

(** A unit with two groups on the left and one pin on the right. *)
Definition two_groups_unit : unit_pins := ([[pin_A; pin_B]; [pin_A]], [[pin_B]]).

Example draw_two_groups :
  draw [two_groups_unit]
  = Ok ["DRAW"; "S -100 250 100 -250 0 1 0 f";
        "X A 1 -200 200 100 R 50 50 0 0 I";
        "X B 2 -200 100 100 R 50 50 0 0 I";
        "X A 1 -200 -100 100 R 50 50 0 0 I";
        "X B 2 200 200 100 L 50 50 0 0 I"; "ENDDRAW"].
Proof. reflexivity. Qed.

Lemma draw_pin_placement_witness :
  exists out,
    draw [two_groups_unit] = Ok out /\
    exists n blocks,
      longest_num [two_groups_unit] = Ok n /\
      out = ("DRAW" :: List.concat blocks ++ ["ENDDRAW"])%list /\
      Forall2
        (fun (entry : Z * unit_pins) block =>
           unit_drawn 1 n (fst entry) (snd entry) block)
        (enumerate [two_groups_unit]) blocks.
Proof.
  eexists; split; [reflexivity |].
  apply (@draw_pin_placement [two_groups_unit]); reflexivity.
Defined.

(* ================================================================== *)
(** * When [longest_num] and [geometry] return *)
(* ================================================================== *)

Lemma mapM_ok_inv {A B : Type} (f : A -> result B) (l : list A) (bs : list B) :
  mapM f l = Ok bs -> Forall (fun a => exists b, f a = Ok b) l.
Proof.
  revert bs; induction l as [| a l IH]; simpl; intros bs H.
  - constructor.
  - inv_bind H as b Hb; inv_bind H as bs' Hbs'.
    constructor; [exists b; exact Hb | exact (IH _ Hbs')].
Qed.

Lemma reached_In {A B : Type} (f : A -> result B) (l : list A) (a : A) :
  reached f l a -> In a l.
Proof.
  intros (done & rest & out & -> & _); apply in_elt.
Qed.

(** What the nested maxima of a side raise: the [ValueError] of [max]
    on a group without pins, or what [f] raises on a pin. *)
Lemma side_max_err (f : pin -> result Z) (groups : side) (e : pyerr) :
  side_max f groups = Err e ->
  e = ValueError MaxOfEmpty \/
  exists grp p, In grp groups /\ In p grp /\ f p = Err e.
Proof.
  unfold side_max; intros H.
  apply bind_err in H as [H | (ms & _ & H)]; [| discriminate H].
  apply mapM_err in H as (grp & Hgrp & H).
  apply bind_err in H as [H | (xs & _ & H)].
  - apply mapM_err in H as (p & Hp & H).
    right; exists grp, p; repeat split; eauto using reached_In.
  - destruct xs; [| discriminate H].
    simpl in H; left; congruence.
Qed.

Lemma longest_num_ok_inv (units : list unit_pins) (n : Z) :
  longest_num units = Ok n -> units <> [] /\ Forall unit_groups_nonempty units.
Proof.
  unfold longest_num; intros E; inv_bind E as ms Hms; split.
  - apply mapM_length in Hms; intros ->.
    destruct ms; [discriminate E | discriminate Hms].
  - apply mapM_ok_inv in Hms; eapply Forall_impl; [| exact Hms].
    intros [l r] (m & Hm); inv_bind Hm as a Ha; inv_bind Hm as b Hb.
    split; simpl; [exact (proj1 (side_max_ok _ _ Ha)) | exact (proj1 (side_max_ok _ _ Hb))].
Qed.

Lemma longest_num_err (units : list unit_pins) (e : pyerr) :
  longest_num units = Err e ->
  e = ValueError MaxOfEmpty /\ (units = [] \/ ~ Forall unit_groups_nonempty units).
Proof.
  intros E; split.
  - unfold longest_num in E.
    apply bind_err in E as [E | (ms & _ & E)].
    + apply mapM_err in E as ([l r] & _ & E).
      apply bind_err in E as [E | (a & _ & E)].
      { apply side_max_err in E as [E | (grp & p & _ & _ & E)];
          [exact E | discriminate E]. }
      apply bind_err in E as [E | (b & _ & E)]; [| discriminate E].
      apply side_max_err in E as [E | (grp & p & _ & _ & E)];
        [exact E | discriminate E].
    + destruct ms; [simpl in E; congruence | discriminate E].
  - destruct units as [| u units]; [left; reflexivity | right].
    intros Hwf; rewrite longest_num_total in E; [discriminate E | discriminate | exact Hwf].
Qed.

(** X1. [longest_num] returns exactly on a non-empty list of units none
    of whose groups is without pins, and then returns the length of the
    longest rendered pin number of all sides of all units (0 without
    pins); whatever it raises is the [ValueError] of [max] on an empty
    sequence. *)
Theorem longest_num_returns (units : list unit_pins) :
  match longest_num units with
  | Ok n =>
      units <> [] /\ Forall unit_groups_nonempty units /\
      n = max_over num_width (flat_map unit_all_pins units)
  | Err e =>
      e = ValueError MaxOfEmpty /\
      (units = [] \/ ~ Forall unit_groups_nonempty units)
  end.
Proof.
  destruct (longest_num units) as [n | e] eqn:E.
  - pose proof E as E'; apply longest_num_ok_inv in E' as (Hne & Hwf).
    repeat split; trivial.
    rewrite (longest_num_total Hne Hwf) in E; congruence.
  - apply longest_num_err; exact E.
Qed.

Lemma geometry_ok_wf (unit : unit_pins) (n : Z) (g : Z * Z * Z) :
  geometry unit n = Ok g -> unit_well_formed unit.
Proof.
  destruct unit as [l r], g as [[w h] len]; intros E.
  apply geometry_ok in E as (a & b & Ha & Hb & _).
  apply side_max_name_ok in Ha as (Hl & Hls & _).
  apply side_max_name_ok in Hb as (Hr & Hrs & _).
  repeat split; assumption.
Qed.

Lemma geometry_err (unit : unit_pins) (n : Z) (e : pyerr) :
  geometry unit n = Err e ->
  (e = TypeError \/ e = ValueError MaxOfEmpty) /\ ~ unit_well_formed unit.
Proof.
  destruct unit as [l r]; intros E; split.
  - assert (Hname : forall groups, side_max name_len groups = Err e ->
                      e = TypeError \/ e = ValueError MaxOfEmpty).
    { intros groups H; apply side_max_err in H as [H | (grp & p & _ & _ & H)]; auto.
      unfold name_len in H; destruct (pin_name p); [discriminate H | left; congruence]. }
    unfold geometry in E.
    apply bind_err in E as [E | (a & _ & E)]; [exact (Hname _ E) |].
    apply bind_err in E as [E | (b & _ & E)]; [exact (Hname _ E) | discriminate E].
  - intros ((Hl & Hls) & (Hr & Hrs)); simpl in Hl, Hls, Hr, Hrs.
    destruct (geometry_total n Hl Hls Hr Hrs) as (w & h & len & Hg).
    rewrite Hg in E; discriminate E.
Qed.

(** X2. [geometry] returns exactly on a unit none of whose groups is
    without pins and all of whose pins are named by a text; what it
    raises otherwise is the [TypeError] of [len] on an integer name or
    the [ValueError] of [max] on a group without pins. *)
Theorem geometry_returns (unit : unit_pins) (n : Z) :
  match geometry unit n with
  | Ok _ => unit_well_formed unit
  | Err e =>
      (e = TypeError \/ e = ValueError MaxOfEmpty) /\ ~ unit_well_formed unit
  end.
Proof.
  destruct (geometry unit n) as [g | e] eqn:E.
  - eapply geometry_ok_wf; exact E.
  - eapply geometry_err; exact E.
Qed.

(** X3. Mirroring a unit (its left groups to the right and its right
    groups to the left) leaves its width, height and stub length
    unchanged. *)
Theorem geometry_mirror (left_pins right_pins : side) (n : Z) (g : Z * Z * Z) :
  geometry (left_pins, right_pins) n = Ok g ->
  geometry (right_pins, left_pins) n = Ok g.
Proof.
  unfold geometry; intros H.
  inv_bind H as a Ha; inv_bind H as b Hb.
  rewrite Hb, Ha; cbn [bind]; rewrite <- H; cbv zeta.
  rewrite (Z.max_comm b a), (andb_comm (truthy right_pins)).
  rewrite (Z.max_comm (n_pins right_pins + n_groups right_pins - 1)).
  reflexivity.
Qed.

Lemma geometry_mirror_witness :
  geometry two_groups_unit 1 = Ok (200, 500, 100) /\
  geometry (snd two_groups_unit, fst two_groups_unit) 1 = Ok (200, 500, 100).
Proof.
  split; [reflexivity |].
  apply (@geometry_mirror (fst two_groups_unit) (snd two_groups_unit) 1); reflexivity.
Defined.

(* ================================================================== *)
(** * Sizes and the grid *)
(* ================================================================== *)


Lemma cols_multiple (x : Z) (both : bool) :
  (if both then round_up_to 100 x * 2 else round_up_to 100 x) mod 100 = 0.
Proof.
  destruct (round_up_to_least x (m := 100)) as (_ & Hm & _); [lia |].
  destruct both; [| exact Hm].
  apply Z.mod_divide in Hm as [q Hq]; [| lia]; rewrite Hq.
  replace (q * 100 * 2) with (2 * q * 100) by lia; apply Z.mod_mul; lia.
Qed.




(** Half the width plus the stub is a multiple of 100, and so is half
    the height less 50. *)
Lemma geometry_origin_on_grid (unit : unit_pins) (n w h len : Z) :
  geometry unit n = Ok (w, h, len) ->
  (w / 2 + len) mod 100 = 0 /\ (h / 2 - 50) mod 100 = 0 /\ h = 2 * (h / 2).
Proof.
  destruct unit as [l r]; intros H.
  apply geometry_ok in H as (a & b & _ & _ & Hlen & Hw & Hh); cbv zeta in *.
  split.
  - subst w len; apply nudge_aligns; [apply cols_multiple | apply stub_length_multiple].
  - set (rows := Z.max (pin_count l + group_count l - 1)
                        (pin_count r + group_count r - 1)) in *.
    assert (Hodd : exists m, h = 100 * (2 * m + 1)).
    { pose proof (Z.div_mod rows 2 ltac:(lia)) as Hdiv.
      pose proof (Z.mod_pos_bound rows 2 ltac:(lia)) as Hbound.
      revert Hh; destruct (Z.eqb_spec (rows mod 2) 0) as [E | E]; intros Hh.
      - exists (rows / 2); lia.
      - exists (rows / 2); lia. }
    destruct Hodd as (m & ->).
    replace (100 * (2 * m + 1)) with ((100 * m + 50) * 2) by lia.
    rewrite Z.div_mul by lia.
    split; [| lia].
    replace (100 * m + 50 - 50) with (m * 100) by lia; apply Z.mod_mul; lia.
Qed.

(** X5. The pins are on the 100 grid: in the lines [draw] emits for a
    unit, the pins of the right side are at the abscissa [x] and those
    of the left side at [-x], from the first row [y] downwards in steps
    of 100, and [x] and [y] are multiples of 100. *)
Theorem draw_unit_on_grid (n_units : nat) (n idx : Z) (unit : unit_pins)
    (block : list string) :
  draw_unit n_units n idx unit = Ok block ->
  exists w h len x y left_lines right_lines,
    geometry unit n = Ok (w, h, len) /\
    x = w / 2 + len /\ y = h / 2 - 50 /\
    x mod 100 = 0 /\ (forall row, (y - 100 * row) mod 100 = 0) /\
    List.length block = S (List.length left_lines + List.length right_lines) /\
    (forall i, nth_error block (S i) = nth_error (left_lines ++ right_lines)%list i) /\
    placed (fst unit) (- x) y "R" len
           (if (1 <? n_units)%nat then idx + 1 else idx) left_lines /\
    placed (snd unit) x y "L" len
           (if (1 <? n_units)%nat then idx + 1 else idx) right_lines.
Proof.
  intros H; apply draw_unit_drawn in H.
  destruct H as (w & h & len & left_lines & right_lines & Hg & -> & Hleft & Hright).
  destruct (geometry_origin_on_grid _ _ Hg) as (Hx & Hy & _).
  exists w, h, len, (w / 2 + len), (h / 2 - 50), left_lines, right_lines.
  repeat (split; [first [exact Hg | reflexivity | exact Hx] |]).
  split.
  { intros row; replace (h / 2 - 50 - 100 * row) with (h / 2 - 50 + (- row) * 100) by lia.
    rewrite Z.mod_add by lia; exact Hy. }
  split; [simpl; rewrite length_app; reflexivity |].
  split; [intros i; reflexivity |].
  replace (- (w / 2 + len)) with (- (w / 2) - len) by lia.
  split; assumption.
Qed.

Lemma draw_unit_on_grid_witness :
  exists block,
    draw_unit 1 1 0 two_groups_unit = Ok block /\
    exists w h len x y left_lines right_lines,
      geometry two_groups_unit 1 = Ok (w, h, len) /\
      x = w / 2 + len /\ y = h / 2 - 50 /\
      x mod 100 = 0 /\ (forall row, (y - 100 * row) mod 100 = 0) /\
      List.length block = S (List.length left_lines + List.length right_lines) /\
      (forall i, nth_error block (S i) = nth_error (left_lines ++ right_lines)%list i) /\
      placed (fst two_groups_unit) (- x) y "R" len 0 left_lines /\
      placed (snd two_groups_unit) x y "L" len 0 right_lines.
Proof.
  eexists; split; [reflexivity |].
  apply (@draw_unit_on_grid 1 1 0 two_groups_unit); reflexivity.
Defined.

(** The pins before the pin [k] of the group [j], and that pin, are
    pins of the side. *)
Lemma pins_before_bound (groups : side) (j k : nat) (grp : group) (p : pin) :
  nth_error groups j = Some grp -> nth_error grp k = Some p ->
  (List.length (List.concat (firstn j groups)) + k < List.length (List.concat groups))%nat /\
  (j < List.length groups)%nat.
Proof.
  intros Hj Hk.
  assert (Hk' : (k < List.length grp)%nat) by (apply nth_error_Some; congruence).
  assert (Hj' : (j < List.length groups)%nat) by (apply nth_error_Some; congruence).
  split; [| exact Hj'].
  revert j Hj Hj'; induction groups as [| g groups IH]; intros j Hj Hj'.
  - destruct j; discriminate Hj.
  - destruct j as [| j]; cbn [nth_error firstn List.concat] in *.
    + inv_ok Hj; rewrite length_app; simpl; lia.
    + simpl in Hj'; specialize (IH j Hj ltac:(lia)).
      rewrite !length_app; lia.
Qed.

(** X6. The pins lie inside the box: the row of every pin of either
    side of a unit is at least 50 below the top edge [h/2] of the box
    and at least 50 above its bottom edge [-(h/2)]. *)
Theorem pins_within_box (unit : unit_pins) (n w h len : Z) (groups : side)
    (j k : nat) (grp : group) (p : pin) :
  geometry unit n = Ok (w, h, len) ->
  groups = fst unit \/ groups = snd unit ->
  nth_error groups j = Some grp -> nth_error grp k = Some p ->
  let row := Z.of_nat (List.length (List.concat (firstn j groups)) + k + j) in
  - (h / 2) + 50 <= h / 2 - 50 - 100 * row <= h / 2 - 50.
Proof.
  intros Hg Hside Hj Hk row.
  destruct (pins_before_bound _ _ _ Hj Hk) as (Hpins & Hgroups).
  destruct (geometry_origin_on_grid _ _ Hg) as (_ & _ & Hhalf).
  assert (Hrows : 100 * (pin_count groups + group_count groups - 1) <= h).
  { destruct unit as [l r].
    apply geometry_ok in Hg as (_ & _ & _ & _ & _ & _ & Hh); cbv zeta in Hh.
    simpl in Hside; destruct (_ mod 2 =? 0); destruct Hside as [-> | ->]; lia. }
  unfold pin_count, group_count in Hrows; subst row; lia.
Qed.

Lemma pins_within_box_witness :
  let row := Z.of_nat (List.length (List.concat (firstn 1 (fst two_groups_unit))) + 0 + 1) in
  - (500 / 2) + 50 <= 500 / 2 - 50 - 100 * row <= 500 / 2 - 50.
Proof.
  apply (@pins_within_box two_groups_unit 1 200 500 100 (fst two_groups_unit)
           1%nat 0%nat [pin_A] pin_A); (reflexivity || (left; reflexivity)).
Defined.

(* ================================================================== *)
(** * Electrical types *)
(* ================================================================== *)

(** The items of the dictionary [pin_types]. *)
Definition pin_type_items : list (string * string) :=
  [("in", "I"); ("out", "O"); ("bidi", "B"); ("tri", "T"); ("passive", "P");
   ("unspec", "U"); ("pwrin", "W"); ("pwrout", "w"); ("oc", "C"); ("od", "C");
   ("oe", "E"); ("os", "E"); ("nc", "N")].

Lemma pin_types_ok (t code : string) :
  pin_types t = Ok code -> In (t, code) pin_type_items.
Proof.
  unfold pin_types.
  repeat match goal with
         | |- context [String.eqb t ?s] =>
             destruct (String.eqb_spec t s) as [-> | _];
             [intros H; apply Ok_inj in H; subst code; cbn [In pin_type_items]; tauto |]
         end.
  discriminate.
Qed.

Lemma pin_types_err (t : string) (e : pyerr) :
  pin_types t = Err e -> e = KeyError t /\ forall code, ~ In (t, code) pin_type_items.
Proof.
  unfold pin_types.
  repeat match goal with
         | |- context [String.eqb t ?s] =>
             destruct (String.eqb_spec t s) as [-> | ?]; [discriminate |]
         end.
  intros H; split; [congruence |].
  intros code Hin; cbn [In pin_type_items] in Hin.
  repeat (destruct Hin as [Hin | Hin]; [injection Hin as Ht _; congruence |]).
  exact Hin.
Qed.

(** X7. Two names of electrical types are rendered by the same code
    only when they are equal, or both among [oc] and [od], or both
    among [oe] and [os]. *)
Theorem pin_types_codes (t1 t2 code : string) :
  pin_types t1 = Ok code -> pin_types t2 = Ok code ->
  t1 = t2 \/ (In t1 ["oc"; "od"] /\ In t2 ["oc"; "od"])
          \/ (In t1 ["oe"; "os"] /\ In t2 ["oe"; "os"]).
Proof.
  intros H1 H2; apply pin_types_ok in H1, H2.
  cbn [In pin_type_items] in H1, H2.
  repeat (destruct H1 as [H1 | H1]; [injection H1 as <- <- |]); try contradiction;
    repeat (destruct H2 as [H2 | H2];
            [injection H2; intros; subst; first [congruence | simpl; tauto] |]);
    contradiction.
Qed.

Lemma pin_types_codes_witness :
  pin_types "oc" = Ok "C" /\ pin_types "od" = Ok "C" /\
  ("oc" = "od" \/ (In "oc" ["oc"; "od"] /\ In "od" ["oc"; "od"])
               \/ (In "oc" ["oe"; "os"] /\ In "od" ["oe"; "os"])).
Proof.
  split; [reflexivity |]; split; [reflexivity |].
  apply (@pin_types_codes "oc" "od" "C"); reflexivity.
Defined.

(** A pin whose type is not a key of [pin_types]. *)
Definition unknown_type (p : pin) : bool :=
  match pin_types (pin_type p) with
  | Ok _ => false
  | Err _ => true
  end.

Lemma find_app {A : Type} (f : A -> bool) (l1 l2 : list A) :
  find f (l1 ++ l2)%list
  = match find f l1 with
    | Some x => Some x
    | None => find f l2
    end.
Proof.
  induction l1 as [| a l1 IH]; simpl; [reflexivity |].
  destruct (f a); [reflexivity | exact IH].
Qed.

Section DrawPinsReturns.

Variables (x : Z) (direction : string) (length unit_idx : Z).

Lemma draw_pin_loop_returns (grp : group) (out : list string) (y : Z) :
  match find unknown_type grp with
  | Some p =>
      foldM (draw_pin x direction length unit_idx) grp (out, y)
      = Err (KeyError (pin_type p))
  | None =>
      exists lines,
        foldM (draw_pin x direction length unit_idx) grp (out, y)
        = Ok ((out ++ lines)%list, y - 100 * Z.of_nat (List.length grp)) /\
        List.length lines = List.length grp
  end.
Proof.
  revert out y; induction grp as [| p grp IH]; intros out y.
  - exists []; rewrite app_nil_r; split; [simpl; do 2 f_equal; lia | reflexivity].
  - cbn [find foldM]; unfold unknown_type at 1.
    change (draw_pin x direction length unit_idx (out, y) p)
      with (code <- pin_types (pin_type p) ;;
            Ok ((out ++ [pin_line (pin_name p) (pin_num p) x y length
                                  direction unit_idx code])%list, y - 100)).
    destruct (pin_types (pin_type p)) as [code | e] eqn:E; cbn [bind].
    + specialize (IH (out ++ [pin_line (pin_name p) (pin_num p) x y length
                                       direction unit_idx code])%list (y - 100)).
      destruct (find unknown_type grp) as [q |]; [exact IH |].
      destruct IH as (lines & Hlines & Hlen).
      eexists (_ :: lines); split.
      * rewrite Hlines, <- app_assoc; do 2 f_equal; try reflexivity.
        cbn [List.length]; lia.
      * simpl; rewrite Hlen; reflexivity.
    + apply pin_types_err in E as (-> & _); reflexivity.
Qed.

Lemma draw_group_loop_returns (groups : side) (out : list string) (y : Z) :
  match find unknown_type (List.concat groups) with
  | Some p =>
      foldM (draw_group x direction length unit_idx) groups (out, y)
      = Err (KeyError (pin_type p))
  | None =>
      exists lines y',
        foldM (draw_group x direction length unit_idx) groups (out, y)
        = Ok ((out ++ lines)%list, y') /\
        List.length lines = List.length (List.concat groups)
  end.
Proof.
  revert out y; induction groups as [| g groups IH]; intros out y.
  - exists [], y; rewrite app_nil_r; split; reflexivity.
  - cbn [List.concat foldM]; rewrite find_app.
    change (draw_group x direction length unit_idx (out, y) g)
      with (st <- foldM (draw_pin x direction length unit_idx) g (out, y) ;;
            let '(out, pin_y) := st in Ok (out, pin_y - 100)).
    pose proof (draw_pin_loop_returns g out y) as Hg.
    destruct (find unknown_type g) as [p |].
    + rewrite Hg; reflexivity.
    + destruct Hg as (lines_g & -> & Hlen_g); cbn [bind].
      specialize (IH (out ++ lines_g)%list (y - 100 * Z.of_nat (List.length g) - 100)).
      destruct (find unknown_type (List.concat groups)) as [p |]; [exact IH |].
      destruct IH as (lines & y' & -> & Hlen).
      exists (lines_g ++ lines)%list, y'; split.
      * rewrite app_assoc; reflexivity.
      * rewrite !length_app, Hlen_g, Hlen; reflexivity.
Qed.

(** X8. [draw_pins] returns one line per pin when the type of every
    pin is a key of [pin_types]; otherwise it raises the [KeyError] of
    the first pin, in the order of the groups and of the pins in them,
    whose type is not. *)
Theorem draw_pins_returns (groups : side) (y0 : Z) :
  match find unknown_type (List.concat groups) with
  | Some p =>
      draw_pins groups x y0 direction length unit_idx = Err (KeyError (pin_type p))
  | None =>
      exists out,
        draw_pins groups x y0 direction length unit_idx = Ok out /\
        List.length out = List.length (List.concat groups)
  end.
Proof.
  unfold draw_pins; pose proof (draw_group_loop_returns groups [] y0) as H.
  destruct (find unknown_type (List.concat groups)) as [p |].
  - rewrite H; reflexivity.
  - destruct H as (lines & y' & -> & Hlen); exists lines; split; [reflexivity | exact Hlen].
Qed.

End DrawPinsReturns.

(* ================================================================== *)
(** * The drawing of a component *)
(* ================================================================== *)





(* ================================================================== *)
(** * Where [fields] puts the fields, and when it returns *)
(* ================================================================== *)

Lemma fold_left_max_spec (xs : list Z) (x : Z) :
  (fold_left Z.max xs x = x \/ In (fold_left Z.max xs x) xs) /\
  x <= fold_left Z.max xs x /\
  Forall (fun z => z <= fold_left Z.max xs x) xs.
Proof.
  revert x; induction xs as [| z xs IH]; intros x; simpl.
  - repeat split; [left; reflexivity | lia | constructor].
  - destruct (IH (Z.max x z)) as (Hin & Hle & Hall).
    repeat split; [| lia | constructor; [lia | exact Hall]].
    destruct Hin as [Heq | Hin]; [| right; right; exact Hin].
    rewrite Heq; destruct (Z.max_spec x z) as [[_ ->] | [_ ->]]; [right | left]; auto.
Qed.

(** [max(xs)] is an element of [xs] that no element exceeds. *)
Lemma py_max_spec (xs : list Z) (m : Z) :
  py_max xs = Ok m -> In m xs /\ Forall (fun z => z <= m) xs.
Proof.
  destruct xs as [| x xs]; simpl; intros H; [discriminate H |].
  apply Ok_inj in H; subst m.
  destruct (fold_left_max_spec xs x) as (Hin & Hle & Hall).
  split; [destruct Hin as [-> | Hin]; auto | constructor; assumption].
Qed.

Lemma mapM_at {A B : Type} (f : A -> result B) (l : list A) (bs : list B) :
  mapM f l = Ok bs -> Forall2 (fun a b => f a = Ok b) l bs.
Proof.
  revert bs; induction l as [| a l IH]; simpl; intros bs H.
  - apply Ok_inj in H; subst bs; constructor.
  - inv_bind H as b Hb; inv_bind H as bs' Hbs'; apply Ok_inj in H; subst bs.
    constructor; [exact Hb | exact (IH _ Hbs')].
Qed.

Lemma Forall2_In_r {A B : Type} (P : A -> B -> Prop) (l1 : list A) (l2 : list B) (b : B) :
  Forall2 P l1 l2 -> In b l2 -> exists a, In a l1 /\ P a b.
Proof.
  induction 1 as [| x y l1 l2 Hxy _ IH]; intros Hin; [destruct Hin |].
  destruct Hin as [<- | Hin]; [exists x; split; [left; reflexivity | exact Hxy] |].
  destruct (IH Hin) as (a & Ha & HP); exists a; split; [right; exact Ha | exact HP].
Qed.

Lemma Forall2_In_l {A B : Type} (P : A -> B -> Prop) (l1 : list A) (l2 : list B) (a : A) :
  Forall2 P l1 l2 -> In a l1 -> exists b, In b l2 /\ P a b.
Proof.
  induction 1 as [| x y l1 l2 Hxy _ IH]; intros Hin; [destruct Hin |].
  destruct Hin as [<- | Hin]; [exists y; split; [left; reflexivity | exact Hxy] |].
  destruct (IH Hin) as (b & Hb & HP); exists b; split; [right; exact Hb | exact HP].
Qed.

(** X10. The fields are placed around the box that bounds all units:
    with [W] the largest width and [H] the largest height of the units
    of the component (each attained by a unit), the reference field
    [F0] is at the left edge [-(W/2)] and 50 above the top edge [H/2],
    and the value field [F1] at the same abscissa 50 below the bottom
    edge, so that neither lies inside the box of any unit.  The two
    lines are given by their text. *)
Theorem fields_bounding_box (c : conf) (units : list unit_pins) (out : list string) :
  fields c units = Ok out ->
  exists n W H name,
    longest_num units = Ok n /\ conf_name c = Some name /\
    (forall unit, In unit units ->
       exists w h len, geometry unit n = Ok (w, h, len) /\ w <= W /\ h <= H) /\
    (exists unit h len, In unit units /\ geometry unit n = Ok (W, h, len)) /\
    (exists unit w len, In unit units /\ geometry unit n = Ok (w, H, len)) /\
    nth_error out 0
      = Some ("F0 " ++ dq ++ pystr (get (conf_designator c) (SStr "IC")) ++ dq ++ " "
                    ++ str_of_Z (- (W / 2)) ++ " " ++ str_of_Z (H / 2 + 50)
                    ++ " 50 H V L CNN") /\
    nth_error out 1
      = Some ("F1 " ++ dq ++ pystr name ++ dq ++ " "
                    ++ str_of_Z (- (W / 2)) ++ " " ++ str_of_Z (- (H / 2 + 50))
                    ++ " 50 H V L CNN").
Proof.
  unfold fields; intros E.
  inv_bind E as n Hn; inv_bind E as geoms Hgeoms.
  inv_bind E as W HW; inv_bind E as H HH.
  cbv zeta in E; inv_bind E as name Hname.
  destruct (conf_name c) as [name' |]; inv_ok Hname.
  apply mapM_at in Hgeoms.
  apply py_max_spec in HW as (HWin & HWall), HH as (HHin & HHall).
  rewrite Forall_map in HWall, HHall; rewrite Forall_forall in HWall, HHall.
  apply in_map_iff in HWin as ([[w1 h1] l1] & Hw1 & HWin); simpl in Hw1; subst w1.
  apply in_map_iff in HHin as ([[w2 h2] l2] & Hh2 & HHin); simpl in Hh2; subst h2.
  destruct (Forall2_In_r _ Hgeoms HWin) as (uW & HuW & HgW).
  destruct (Forall2_In_r _ Hgeoms HHin) as (uH & HuH & HgH).
  exists n, W, H, name; split; [exact Hn |]; split; [reflexivity |].
  split.
  { intros unit Hunit.
    destruct (Forall2_In_l _ Hgeoms Hunit) as ([[w h] len] & Hin & Hg).
    exists w, h, len; split; [exact Hg |].
    split; [exact (HWall _ Hin) | exact (HHall _ Hin)]. }
  split; [exists uW, h1, l1; split; assumption |].
  split; [exists uH, w2, l2; split; assumption |].
  rewrite <- (opp_half W (geometry_width_multiple _ _ HgW)).
  rewrite (@fold_left_append _ _
             (fun entry : Z * (scalar * scalar) =>
                ordercode_line (fst entry + 4) (pystr (snd (snd entry))) (- W / 2)
                               (- (H / 2 + 50) - (300 + fst entry * 100))
                               (fst (snd entry)))) in E;
    [| intros o [idx [supplier code]]; reflexivity].
  apply Ok_inj in E; subst out.
  destruct (conf_footprint c), (conf_datasheet c); split; reflexivity.
Qed.

(** The fields of a component with the units of scenario A (200 by
    300) and of [two_groups_unit] (200 by 500). *)
Lemma fields_bounding_box_witness :
  exists out,
    fields conf_order_codes [scenario_A; two_groups_unit] = Ok out /\
    (exists n W H name,
       longest_num [scenario_A; two_groups_unit] = Ok n /\
       conf_name conf_order_codes = Some name /\
       (forall unit, In unit [scenario_A; two_groups_unit] ->
          exists w h len, geometry unit n = Ok (w, h, len) /\ w <= W /\ h <= H) /\
       (exists unit h len,
          In unit [scenario_A; two_groups_unit] /\ geometry unit n = Ok (W, h, len)) /\
       (exists unit w len,
          In unit [scenario_A; two_groups_unit] /\ geometry unit n = Ok (w, H, len)) /\
       nth_error out 0
         = Some ("F0 " ++ dq ++ pystr (get (conf_designator conf_order_codes) (SStr "IC"))
                       ++ dq ++ " "
                       ++ str_of_Z (- (W / 2)) ++ " " ++ str_of_Z (H / 2 + 50)
                       ++ " 50 H V L CNN") /\
       nth_error out 1
         = Some ("F1 " ++ dq ++ pystr name ++ dq ++ " "
                       ++ str_of_Z (- (W / 2)) ++ " " ++ str_of_Z (- (H / 2 + 50))
                       ++ " 50 H V L CNN")) /\
    nth_error out 0
      = Some ("F0 " ++ String "034" ("IC" ++ String "034" " -100 300 50 H V L CNN")) /\
    nth_error out 1
      = Some ("F1 " ++ String "034" ("REG" ++ String "034" " -100 -300 50 H V L CNN")).
Proof.
  eexists; split; [vm_compute; reflexivity |].
  split; [| split; vm_compute; reflexivity].
  apply (@fields_bounding_box conf_order_codes [scenario_A; two_groups_unit]).
  vm_compute; reflexivity.
Defined.

Lemma Forall_well_formed_groups (units : list unit_pins) :
  Forall unit_well_formed units -> Forall unit_groups_nonempty units.
Proof.
  intros H; eapply Forall_impl; [| exact H].
  intros u ((Hl & _) & (Hr & _)); split; assumption.
Qed.

(** X11. [fields] returns exactly when the component has a name and at
    least one unit, and no unit has a group without pins or a pin named
    by an integer.  With such units and no name it raises the
    [KeyError] of [name]; with other units it raises the [TypeError] of
    [len] or the [ValueError] of [max], whether there is a name or
    not. *)
Theorem fields_returns_iff (c : conf) (units : list unit_pins) :
  match fields c units with
  | Ok _ =>
      units <> [] /\ Forall unit_well_formed units /\ conf_name c <> None
  | Err e =>
      (e = KeyError "name" /\ conf_name c = None /\
       units <> [] /\ Forall unit_well_formed units) \/
      ((e = TypeError \/ e = ValueError MaxOfEmpty) /\
       (units = [] \/ ~ Forall unit_well_formed units))
  end.
Proof.
  destruct (fields c units) as [out | e] eqn:E; unfold fields in E.
  - inv_bind E as n Hn; inv_bind E as geoms Hgeoms.
    inv_bind E as W HW; inv_bind E as H HH; cbv zeta in E; inv_bind E as name Hname.
    apply longest_num_ok_inv in Hn as (Hne & _).
    split; [exact Hne |]; split.
    + apply mapM_ok_inv in Hgeoms; eapply Forall_impl; [| exact Hgeoms].
      intros u (g & Hg); eapply geometry_ok_wf; exact Hg.
    + destruct (conf_name c); [discriminate | discriminate Hname].
  - apply bind_err in E as [E | (n & Hn & E)].
    { right; apply longest_num_err in E as (-> & [-> | Hbad]).
      - split; auto.
      - split; [auto | right].
        intros Hwf; apply Hbad, Forall_well_formed_groups, Hwf. }
    pose proof Hn as Hn'; apply longest_num_ok_inv in Hn' as (Hne & _).
    apply bind_err in E as [E | (geoms & Hgeoms & E)].
    { right; apply mapM_err in E as (u & Hu & E).
      apply geometry_err in E as (Hkind & Hbad).
      split; [exact Hkind | right].
      intros Hwf; rewrite Forall_forall in Hwf.
      exact (Hbad (Hwf _ (reached_In Hu))). }
    assert (Hwf : Forall unit_well_formed units).
    { apply mapM_ok_inv in Hgeoms; eapply Forall_impl; [| exact Hgeoms].
      intros u (g & Hg); eapply geometry_ok_wf; exact Hg. }
    assert (Hg : geoms <> []).
    { apply mapM_length in Hgeoms; intros ->; destruct units; [auto | discriminate Hgeoms]. }
    destruct geoms as [| g geoms]; [contradiction Hg; reflexivity |].
    cbn [map py_max bind] in E; cbv zeta in E.
    apply bind_err in E as [E | (name & _ & E)]; [| discriminate E].
    destruct (conf_name c); [discriminate E |].
    left; simpl in E; repeat split; trivial; congruence.
Qed.

(* ================================================================== *)
(** * The three forms of a unit *)
(* ================================================================== *)

(** X12. One unit, not wrapped in a list of units: when the pin the
    probe reaches (the first pin of the first group of the left side,
    or of the right side for a unit with pins on the right only) is
    named by a text, [normalise_pins] returns exactly that unit, its
    groups and pins unchanged and in order, in each of the three
    forms. *)
Theorem normalise_single_unit (unit : unit_pins) (p : pin) :
  probed_pin unit = Some p -> str_name p ->
  normalise_pins (yaml_of_unit unit) = Ok [yaml_sides unit].
Proof.
  destruct unit as [l r]; intros Hp (s & Hs).
  destruct p as [name num t]; simpl in Hs; subst name.
  destruct l as [| [| pl gl] l'], r as [| [| pr gr] r'];
    simpl in Hp; try discriminate Hp; inv_ok Hp; reflexivity.
Qed.

Lemma normalise_single_unit_witness :
  normalise_pins (yaml_of_unit right_only) = Ok [yaml_sides right_only] /\
  normalise_pins (yaml_of_unit two_groups_unit) = Ok [yaml_sides two_groups_unit].
Proof.
  split.
  - apply (@normalise_single_unit right_only pin_A); [reflexivity | eexists; reflexivity].
  - apply (@normalise_single_unit two_groups_unit pin_A);
      [reflexivity | eexists; reflexivity].
Defined.

(** X13. A list of units: when the probe succeeds on the first unit
    and every unit with groups on both sides has a pin in its first
    left group, [normalise_pins] returns the units one for one and in
    order, whatever the names of the pins are (texts or integers). *)
Theorem normalise_multi_unit (unit : unit_pins) (units : list unit_pins) :
  unit_probed unit -> Forall unit_splittable (unit :: units) ->
  normalise_pins (YList (map yaml_of_unit (unit :: units)))
  = Ok (map yaml_sides (unit :: units)).
Proof.
  intros Hprobe Hall; unfold normalise_pins.
  assert (Hp : probe_units (YList (map yaml_of_unit (unit :: units)))
               = Ok (YList (map yaml_of_unit (unit :: units)))).
  { destruct unit as [l r].
    destruct l as [| [| [name num t] gl] l'], r as [| gr r']; simpl in Hprobe;
      try reflexivity; contradiction Hprobe; reflexivity. }
  rewrite Hp; cbn [bind py_iter].
  apply mapM_map_ok; eapply Forall_impl; [| exact Hall].
  intros u; apply normalise_unit_form.
Qed.

(** A pin named by an integer on each side. *)
Definition integer_named : unit_pins := ([[pin_1]], [[pin_1; pin_1]]).

Lemma normalise_multi_unit_witness :
  normalise_pins (YList (map yaml_of_unit [integer_named; right_only; scenario_A]))
  = Ok (map yaml_sides [integer_named; right_only; scenario_A]).
Proof.
  apply (@normalise_multi_unit integer_named [right_only; scenario_A]).
  - discriminate.
  - repeat constructor; discriminate.
Defined.

(* ================================================================== *)
(** * [documentation] *)
(* ================================================================== *)

(** ["$CMP {}"], ["D {}"] and ["F {}"] *)
Definition cmp_line (text : string) : string := "$CMP " ++ text.
Definition d_line (text : string) : string := "D " ++ text.
Definition f_line (text : string) : string := "F " ++ text.

(** The lines one component adds to [out]. *)
Definition documentation_elm (elm : conf) : result (list string) :=
  let out := [] in
  name <- getitem "name" (conf_name elm) ;;
  let out := (out ++ [cmp_line (pystr name)])%list in
  description <- getitem "description" (conf_description elm) ;;
  let out := (out ++ [d_line (pystr description)])%list in
  let out :=
    match conf_datasheet elm with
    | Some datasheet => (out ++ [f_line (pystr datasheet)])%list
    | None => out
    end in
  Ok (out ++ ["$ENDCMP"])%list.

Definition documentation (c : conf_input) : result string :=
  let cs := conf_list c in
  let out := ["EESchema-DOCLIB  Version 2.0"] in
  out <- foldM (fun out elm => ls <- documentation_elm elm ;; Ok (out ++ ls)%list) cs out ;;
  Ok (String.concat nl out).

(** A component with a name and a description. *)
Definition documented (elm : conf) : Prop :=
  conf_name elm <> None /\ conf_description elm <> None.

(** The block of a component in the documentation: three lines, and a
    fourth for the datasheet between the description and the end. *)
Definition doc_block (elm : conf) : list string :=
  ([cmp_line (optional_text (conf_name elm));
    d_line (optional_text (conf_description elm))]
   ++ match conf_datasheet elm with
      | Some datasheet => [f_line (pystr datasheet)]
      | None => []
      end
   ++ ["$ENDCMP"])%list.

Lemma documentation_elm_ok (elm : conf) :
  documented elm -> documentation_elm elm = Ok (doc_block elm).
Proof.
  unfold documented, documentation_elm, doc_block; intros (Hn & Hd).
  destruct (conf_name elm); [| contradiction Hn; reflexivity].
  destruct (conf_description elm); [| contradiction Hd; reflexivity].
  destruct (conf_datasheet elm); reflexivity.
Qed.

Lemma documentation_elm_err (elm : conf) (e : pyerr) :
  documentation_elm elm = Err e ->
  (e = KeyError "name" /\ conf_name elm = None) \/
  (e = KeyError "description" /\ conf_name elm <> None /\ conf_description elm = None).
Proof.
  unfold documentation_elm.
  destruct (conf_name elm); simpl; [| intros H; left; split; congruence].
  destruct (conf_description elm); simpl.
  - destruct (conf_datasheet elm); discriminate.
  - intros H; right; repeat split; congruence.
Qed.

Lemma foldM_extend_all {A : Type} (f : A -> result (list string)) (g : A -> list string)
    (l : list A) (out : list string) :
  Forall (fun a => f a = Ok (g a)) l ->
  foldM (fun out a => ls <- f a ;; Ok (out ++ ls)%list) l out
  = Ok (out ++ List.concat (map g l))%list.
Proof.
  intros H; revert out; induction H as [| a l Ha _ IH]; intros out; simpl.
  - rewrite app_nil_r; reflexivity.
  - rewrite Ha; cbn [bind]; rewrite IH, app_assoc; reflexivity.
Qed.

(** X14. The documentation of components that all have a name and a
    description is the header line followed by the blocks of the
    components in their order: [$CMP name], [D description], the line
    [F datasheet] exactly when the component has a datasheet, and
    [$ENDCMP].  Pins, footprint, designator and order codes play no
    part. *)
Theorem documentation_text (c : conf_input) :
  Forall documented (conf_list c) ->
  documentation c
  = Ok (String.concat nl
          ("EESchema-DOCLIB  Version 2.0" :: List.concat (map doc_block (conf_list c)))).
Proof.
  intros H; unfold documentation.
  rewrite (@foldM_extend_all _ documentation_elm doc_block); [reflexivity |].
  eapply Forall_impl; [| exact H]; intros elm; apply documentation_elm_ok.
Qed.

(** A component without pins. *)
Definition conf_no_pins : conf :=
  Conf (Some (SStr "REG")) None None (Some (SStr "reg.pdf")) None
       (Some (SStr "A regulator")) None.

Lemma documentation_text_witness :
  documentation (Many [conf_no_pins; conf_no_pins])
  = Ok (String.concat nl
          ("EESchema-DOCLIB  Version 2.0"
           :: List.concat (map doc_block [conf_no_pins; conf_no_pins]))).
Proof.
  apply (@documentation_text (Many [conf_no_pins; conf_no_pins])).
  repeat constructor; discriminate.
Defined.

Example documentation_no_pins :
  documentation (One conf_no_pins)
  = Ok (String.concat nl ["EESchema-DOCLIB  Version 2.0"; "$CMP REG"; "D A regulator";
                          "F reg.pdf"; "$ENDCMP"])
  /\ library (One conf_no_pins) = Err (KeyError "pins").
Proof. split; reflexivity. Qed.

(** X15. [documentation] returns exactly when every component has a
    name and a description.  Otherwise it raises the [KeyError] of the
    first missing key of the first such component, [name] before
    [description], and returns no text. *)
Theorem documentation_returns (c : conf_input) :
  match documentation c with
  | Ok _ => Forall documented (conf_list c)
  | Err e =>
      exists done elm rest,
        conf_list c = (done ++ elm :: rest)%list /\ Forall documented done /\
        ((e = KeyError "name" /\ conf_name elm = None) \/
         (e = KeyError "description" /\ conf_name elm <> None /\
          conf_description elm = None))
  end.
Proof.
  destruct (documentation c) as [text | e] eqn:E.
  - unfold documentation in E; inv_bind E as out Hout.
    apply foldM_extend_ok in Hout as (blocks & Hall & _).
    clear E; induction Hall as [| elm block cs blocks Hb _ IH]; constructor; [| exact IH].
    unfold documented, documentation_elm in *.
    destruct (conf_name elm); [| discriminate Hb].
    destruct (conf_description elm); [| discriminate Hb].
    split; discriminate.
  - assert (Hsplit : forall cs,
              Forall documented cs \/
              exists done elm rest,
                cs = (done ++ elm :: rest)%list /\ Forall documented done /\
                exists e', documentation_elm elm = Err e').
    { induction cs as [| elm cs IH]; [left; constructor |].
      destruct (documentation_elm elm) as [block | e'] eqn:Eelm.
      - assert (Hd : documented elm).
        { unfold documented, documentation_elm in *.
          destruct (conf_name elm); [| discriminate Eelm].
          destruct (conf_description elm); [| discriminate Eelm].
          split; discriminate. }
        destruct IH as [IH | (done & x & rest & -> & Hdone & Hx)].
        + left; constructor; assumption.
        + right; exists (elm :: done), x, rest.
          split; [reflexivity |]; split; [constructor; assumption | exact Hx].
      - right; exists [], elm, cs.
        split; [reflexivity |]; split; [constructor | exists e'; exact Eelm]. }
    destruct (Hsplit (conf_list c)) as [Hall | (done & elm & rest & Hcs & Hdone & e' & He')].
    + unfold documentation in E.
      rewrite (@foldM_extend_all _ documentation_elm doc_block) in E; [discriminate E |].
      eapply Forall_impl; [| exact Hall]; intros d; apply documentation_elm_ok.
    + exists done, elm, rest; split; [exact Hcs |]; split; [exact Hdone |].
      assert (Hex : documentation c = Err e').
      { unfold documentation; rewrite Hcs.
        erewrite foldM_extend_err; [reflexivity | | exact He'].
        eapply Forall_impl; [| exact Hdone].
        intros d Hd; exists (doc_block d); apply documentation_elm_ok; exact Hd. }
      rewrite Hex in E; inv_ok E.
      apply documentation_elm_err; exact He'.
Qed.

(* ================================================================== *)
(** * The library of several components *)
(* ================================================================== *)

Lemma foldM_extend_blocks {A : Type} (f : A -> result (list string)) (l : list A)
    (blocks : list (list string)) (out : list string) :
  Forall2 (fun a block => f a = Ok block) l blocks ->
  foldM (fun out a => ls <- f a ;; Ok (out ++ ls)%list) l out
  = Ok (out ++ List.concat blocks)%list.
Proof.
  intros H; revert out; induction H as [| a block l blocks Ha _ IH]; intros out; simpl.
  - rewrite app_nil_r; reflexivity.
  - rewrite Ha; cbn [bind]; rewrite IH, app_assoc; reflexivity.
Qed.


(** X16. A library of several components is assembled component by
    component: [library] returns exactly when the lines of every
    component can be produced, and its text is then the two header
    lines, the lines of the components in the order of the input, and
    the closing banner, joined by line feeds; the lines of a component
    do not depend on the other components. *)
Theorem library_batch (cs : list conf) (text : string) :
  library (Many cs) = Ok text <->
  exists blocks,
    Forall2 (fun elm block => library_elm elm = Ok block) cs blocks /\
    text = String.concat nl
             (library_header ++ List.concat blocks ++ [library_footer])%list.
Proof.
  split.
  - intros H; unfold library in H; inv_bind H as out Hout; apply Ok_inj in H; subst text.
    apply foldM_extend_ok in Hout as (blocks & Hall & ->).
    exists blocks; split; [exact Hall |].
    rewrite <- app_assoc; reflexivity.
  - intros (blocks & Hall & ->); unfold library; cbn [conf_list].
    rewrite (foldM_extend_blocks library_elm _ Hall); cbn [bind].
    rewrite <- app_assoc; reflexivity.
Qed.

(* ------------------------------------------------------------------ *)
(** ** The emitters on units that are lists of groups of pins *)

(** On the pairs [normalise_pins] returns for units in the three
    forms, the emitters [library] calls are the emitters on pins,
    groups and units. *)

Lemma mapM_map {A B C : Type} (f : B -> result C) (g : A -> B) (l : list A) :
  mapM f (map g l) = mapM (fun a => f (g a)) l.
Proof.
  induction l as [| a l IH]; simpl; [| rewrite IH]; reflexivity.
Qed.

Lemma mapM_ext {A B : Type} (f g : A -> result B) (l : list A) :
  (forall a, f a = g a) -> mapM f l = mapM g l.
Proof.
  intros H; induction l as [| a l IH]; simpl; [| rewrite H, IH]; reflexivity.
Qed.

Lemma foldM_map {S A B : Type} (body : S -> B -> result S) (g : A -> B)
    (l : list A) (s : S) :
  foldM body (map g l) s = foldM (fun s a => body s (g a)) l s.
Proof.
  revert s; induction l as [| a l IH]; simpl; intros s; [reflexivity |].
  destruct (body s (g a)); simpl; [apply IH | reflexivity].
Qed.

Lemma enumerate_from_map {A B : Type} (g : A -> B) (l : list A) (start : Z) :
  enumerate_from start (map g l)
  = map (fun entry : Z * A => (fst entry, g (snd entry))) (enumerate_from start l).
Proof.
  revert start; induction l as [| a l IH]; simpl; intros start; [| rewrite IH]; reflexivity.
Qed.

Lemma py_str_scalar (v : scalar) : py_str (yaml_of_scalar v) = pystr v.
Proof.
  destruct v; reflexivity.
Qed.

Lemma name_len_raw_pin (p : pin) : name_len_raw (yaml_of_pin p) = name_len p.
Proof.
  destruct p as [[s | z] num t]; reflexivity.
Qed.

Lemma num_len_raw_pin (p : pin) : num_len_raw (yaml_of_pin p) = num_len p.
Proof.
  destruct p as [name num t]; unfold num_len_raw, num_len, yaml_of_pin.
  cbn [py_index nth_error bind pin_num]; rewrite py_str_scalar; reflexivity.
Qed.

Lemma side_max_raw_side (fr : yaml -> result Z) (f : pin -> result Z) (groups : side) :
  (forall p, fr (yaml_of_pin p) = f p) ->
  side_max_raw fr (yaml_of_side groups) = side_max f groups.
Proof.
  intros H; unfold side_max_raw, side_max, yaml_of_side; cbn [py_iter bind].
  rewrite mapM_map.
  rewrite (mapM_ext _ (fun grp : group => xs <- mapM f grp ;; py_max xs));
    [reflexivity |].
  intros grp; unfold yaml_of_group; cbn [py_iter bind].
  rewrite mapM_map, (mapM_ext _ f) by exact H; reflexivity.
Qed.

Lemma longest_num_raw_sides (units : list unit_pins) :
  longest_num_raw (map yaml_sides units) = longest_num units.
Proof.
  unfold longest_num_raw, longest_num; rewrite mapM_map.
  rewrite (mapM_ext _ (fun unit : unit_pins =>
                         let '(left_pins, right_pins) := unit in
                         a <- side_max num_len left_pins ;;
                         b <- side_max num_len right_pins ;;
                         Ok (Z.max a b)));
    [reflexivity |].
  intros [l r]; unfold yaml_sides; cbn [fst snd].
  rewrite !(side_max_raw_side num_len_raw num_len) by exact num_len_raw_pin.
  reflexivity.
Qed.

Lemma truthy_yaml_side (groups : side) : truthy_yaml (yaml_of_side groups) = truthy groups.
Proof.
  destruct groups; reflexivity.
Qed.

Lemma n_pins_raw_side (groups : side) : n_pins_raw (yaml_of_side groups) = Ok (n_pins groups).
Proof.
  unfold n_pins_raw, yaml_of_side; cbn [py_iter bind].
  rewrite (mapM_map_ok py_len yaml_of_group (fun grp : group => List.length grp)).
  - cbn [bind]; unfold n_pins; f_equal; generalize 0.
    induction groups as [| grp groups IH]; simpl; intros acc; [reflexivity | apply IH].
  - apply Forall_forall; intros grp _; unfold yaml_of_group; cbn [py_len].
    rewrite length_map; reflexivity.
Qed.

Lemma n_groups_raw_side (groups : side) :
  n_groups_raw (yaml_of_side groups) = Ok (n_groups groups).
Proof.
  unfold n_groups_raw, n_groups, yaml_of_side; cbn [py_len bind].
  rewrite length_map; reflexivity.
Qed.

Lemma geometry_raw_sides (unit : unit_pins) (n : Z) :
  geometry_raw (yaml_sides unit) n = geometry unit n.
Proof.
  destruct unit as [l r]; unfold geometry_raw, geometry, yaml_sides; cbn [fst snd].
  rewrite !(side_max_raw_side name_len_raw name_len) by exact name_len_raw_pin.
  destruct (side_max name_len l) as [a | e]; [| reflexivity].
  destruct (side_max name_len r) as [b | e]; [| reflexivity].
  cbn [bind]; cbv zeta.
  rewrite !truthy_yaml_side, !n_pins_raw_side, !n_groups_raw_side; reflexivity.
Qed.

Lemma fields_raw_sides (c : conf) (units : list unit_pins) :
  fields_raw c (map yaml_sides units) = fields c units.
Proof.
  unfold fields_raw, fields; rewrite longest_num_raw_sides.
  destruct (longest_num units) as [n | e]; [| reflexivity]; cbn [bind].
  rewrite mapM_map, (mapM_ext _ (fun unit => geometry unit n))
    by (intros u; apply geometry_raw_sides).
  reflexivity.
Qed.

Lemma draw_pin_raw_pin (x : Z) (direction : string) (len idx : Z)
    (st : list string * Z) (p : pin) :
  draw_pin_raw x direction len idx st (yaml_of_pin p) = draw_pin x direction len idx st p.
Proof.
  destruct st as [out y], p as [name num t].
  unfold draw_pin_raw, draw_pin, pin_line_raw, pin_line, yaml_of_pin.
  cbn [py_iter bind pin_types_at pin_name pin_num pin_type].
  rewrite !py_str_scalar; reflexivity.
Qed.

Lemma draw_group_raw_group (x : Z) (direction : string) (len idx : Z)
    (st : list string * Z) (grp : group) :
  draw_group_raw x direction len idx st (yaml_of_group grp)
  = draw_group x direction len idx st grp.
Proof.
  unfold draw_group_raw, draw_group, yaml_of_group; cbn [py_iter bind].
  rewrite foldM_map, (foldM_ext _ (draw_pin x direction len idx))
    by (intros s p; apply draw_pin_raw_pin).
  reflexivity.
Qed.

Lemma draw_pins_raw_side (groups : side) (x0 y0 : Z) (direction : string) (len idx : Z) :
  draw_pins_raw (yaml_of_side groups) x0 y0 direction len idx
  = draw_pins groups x0 y0 direction len idx.
Proof.
  unfold draw_pins_raw, draw_pins, yaml_of_side; cbn [py_iter bind].
  rewrite foldM_map, (foldM_ext _ (draw_group x0 direction len idx))
    by (intros s grp; apply draw_group_raw_group).
  reflexivity.
Qed.

Lemma draw_unit_raw_sides (n_units : nat) (n idx : Z) (unit : unit_pins) :
  draw_unit_raw n_units n idx (yaml_sides unit) = draw_unit n_units n idx unit.
Proof.
  unfold draw_unit_raw, draw_unit; rewrite geometry_raw_sides.
  destruct (geometry unit n) as [[[w h] len] | e]; [| reflexivity].
  destruct unit as [l r]; unfold yaml_sides; cbn [bind fst snd].
  rewrite !truthy_yaml_side, !draw_pins_raw_side; reflexivity.
Qed.

Lemma draw_raw_sides (units : list unit_pins) :
  draw_raw (map yaml_sides units) = draw units.
Proof.
  unfold draw_raw, draw; rewrite longest_num_raw_sides.
  destruct (longest_num units) as [n | e]; [| reflexivity]; cbn [bind].
  unfold enumerate; rewrite enumerate_from_map, foldM_map, length_map.
  rewrite (foldM_ext _ (fun out (entry : Z * unit_pins) =>
                          let '(unit_idx, unit) := entry in
                          ls <- draw_unit (List.length units) n unit_idx unit ;;
                          Ok (out ++ ls)%list));
    [reflexivity |].
  intros out [idx u]; cbn [fst snd]; rewrite draw_unit_raw_sides; reflexivity.
Qed.

(** A list of units in the three forms is normalised unit by unit. *)
Lemma normalise_pins_listed (unit : unit_pins) (units : list unit_pins) :
  unit_probed unit -> Forall unit_splittable (unit :: units) ->
  normalise_pins (YList (map yaml_of_unit (unit :: units)))
  = Ok (map yaml_sides (unit :: units)).
Proof.
  intros Hprobe Hall; unfold normalise_pins.
  cbn [map]; rewrite probe_units_list by exact Hprobe; cbn [bind py_iter].
  change (yaml_of_unit unit :: map yaml_of_unit units)
    with (map yaml_of_unit (unit :: units)).
  apply (mapM_map_ok normalise_unit yaml_of_unit yaml_sides).
  eapply Forall_impl; [| exact Hall].
  intros u; apply normalise_unit_form.
Qed.

(** What [library] does for a component the pins of which are such a
    list. *)
Lemma library_elm_listed (elm : conf) (unit : unit_pins) (units : list unit_pins) :
  conf_pins elm = Some (YList (map yaml_of_unit (unit :: units))) ->
  unit_probed unit -> Forall unit_splittable (unit :: units) ->
  library_elm elm
  = (name <- getitem "name" (conf_name elm) ;;
     fs <- fields elm (unit :: units) ;;
     ds <- draw (unit :: units) ;;
     Ok ([("#" ++ nl ++ "# " ++ pystr name ++ nl ++ "#")%string;
          def_line name (get (conf_designator elm) (SStr "IC"))
                   (Z.of_nat (List.length (unit :: units)))
                   (if Nat.eqb (List.length (unit :: units)) 1 then "F" else "L")]
         ++ fs ++ ds ++ ["ENDDEF"])%list).
Proof.
  intros Hpins Hprobe Hall; unfold library_elm; rewrite Hpins; cbn [getitem bind].
  rewrite normalise_pins_listed by assumption; cbn [bind].
  destruct (getitem "name" (conf_name elm)) as [name | e]; [| reflexivity]; cbn [bind].
  rewrite fields_raw_sides, draw_raw_sides, length_map.
  destruct (fields elm (unit :: units)) as [fs | e]; [| reflexivity]; cbn [bind].
  destruct (draw (unit :: units)) as [ds | e]; [| reflexivity]; cbn [bind].
  rewrite <- !app_assoc; reflexivity.
Qed.

(* ------------------------------------------------------------------ *)
(** ** Components that are assembled *)

(** A unit all of whose pins have a type that is a key of [pin_types]. *)
Definition types_known (unit : unit_pins) : Prop :=
  find unknown_type (unit_all_pins unit) = None.

Lemma fields_length (c : conf) (units : list unit_pins) (out : list string) :
  fields c units = Ok out ->
  List.length out = (4 + List.length (get (conf_ordercodes c) []))%nat.
Proof.
  unfold fields; intros E.
  inv_bind E as n Hn; inv_bind E as geoms Hgeoms.
  inv_bind E as W HW; inv_bind E as H HH.
  cbv zeta in E; inv_bind E as name Hname.
  rewrite (@fold_left_append _ _
             (fun entry : Z * (scalar * scalar) =>
                ordercode_line (fst entry + 4) (pystr (snd (snd entry))) (- W / 2)
                               (- (H / 2 + 50) - (300 + fst entry * 100))
                               (fst (snd entry)))) in E;
    [| intros o [idx [supplier code]]; reflexivity].
  apply Ok_inj in E; subst out.
  rewrite length_app, length_map; unfold enumerate; rewrite length_enumerate_from.
  destruct (conf_footprint c), (conf_datasheet c); reflexivity.
Qed.

Lemma draw_unit_length (n_units : nat) (n idx : Z) (unit : unit_pins)
    (block : list string) :
  draw_unit n_units n idx unit = Ok block ->
  List.length block = S (List.length (unit_all_pins unit)).
Proof.
  intros H; apply draw_unit_drawn in H.
  destruct H as (w & h & len & L & R & _ & -> & (Hl & _) & (Hr & _)).
  unfold unit_all_pins; simpl; rewrite !length_app, Hl, Hr; reflexivity.
Qed.

Lemma draw_unit_total (n_units : nat) (n idx : Z) (unit : unit_pins) :
  unit_well_formed unit -> types_known unit ->
  exists block, draw_unit n_units n idx unit = Ok block.
Proof.
  destruct unit as [l r]; intros ((Hl & Hls) & (Hr & Hrs)) Hknown; simpl in Hl, Hls, Hr, Hrs.
  unfold types_known, unit_all_pins in Hknown; simpl in Hknown; rewrite find_app in Hknown.
  destruct (find unknown_type (List.concat l)) eqn:El; [discriminate Hknown |].
  destruct (geometry_total n Hl Hls Hr Hrs) as (w & h & len & Hg).
  unfold draw_unit; rewrite Hg; cbn [bind]; unfold draw_pins.
  set (unit_idx := if (1 <? n_units)%nat then idx + 1 else idx).
  set (box := box_line (- w / 2) (h / 2) (w / 2) (- h / 2) unit_idx).
  assert (H1 : exists out1,
             (if truthy l
              then ls <- (st <- foldM (draw_group (- w / 2 - len) "R" len unit_idx) l
                                      ([], h / 2 - 50) ;; Ok (fst st)) ;;
                   Ok ([box] ++ ls)%list
              else Ok [box]) = Ok out1).
  { destruct (truthy l); [| eexists; reflexivity].
    pose proof (draw_group_loop_returns (- w / 2 - len) "R" len unit_idx l [] (h / 2 - 50))
      as Hd; rewrite El in Hd.
    destruct Hd as (lines & y' & -> & _); cbn [bind]; eexists; reflexivity. }
  destruct H1 as (out1 & ->); cbn [bind].
  destruct (truthy r); [| eexists; reflexivity].
  pose proof (draw_group_loop_returns (- (- w / 2 - len)) "L" len unit_idx r []
                (h / 2 - 50)) as Hd; rewrite Hknown in Hd.
  destruct Hd as (lines & y' & -> & _); cbn [bind]; eexists; reflexivity.
Qed.

Lemma In_enumerate_from {A : Type} (l : list A) (start idx : Z) (a : A) :
  In (idx, a) (enumerate_from start l) -> In a l.
Proof.
  revert start; induction l as [| x l IH]; simpl; intros start H; [exact H |].
  destruct H as [H | H]; [left; congruence | right; exact (IH _ H)].
Qed.

Lemma foldM_extend_total {A : Type} (f : A -> result (list string)) (l : list A) :
  Forall (fun a => exists block, f a = Ok block) l ->
  exists blocks, Forall2 (fun a block => f a = Ok block) l blocks.
Proof.
  induction 1 as [| a l (block & Ha) _ (blocks & IH)].
  - exists []; constructor.
  - exists (block :: blocks); constructor; assumption.
Qed.

Lemma draw_blocks_length (n_units : nat) (n : Z) (units : list unit_pins) (start : Z)
    (blocks : list (list string)) :
  Forall2 (fun (entry : Z * unit_pins) block =>
             draw_unit n_units n (fst entry) (snd entry) = Ok block)
          (enumerate_from start units) blocks ->
  List.length (List.concat blocks)
  = (List.length units + List.length (flat_map unit_all_pins units))%nat.
Proof.
  revert start blocks; induction units as [| u units IH]; intros start blocks H.
  - inversion H; reflexivity.
  - simpl in H; inversion H as [| ? block ? blocks' Hu Hrest]; subst.
    cbn [List.concat flat_map List.length]; rewrite !length_app.
    rewrite (IH _ _ Hrest), (draw_unit_length _ _ _ _ Hu); simpl; lia.
Qed.

Lemma draw_total (units : list unit_pins) :
  units <> [] -> Forall unit_well_formed units -> Forall types_known units ->
  exists out,
    draw units = Ok out /\
    List.length out
    = (2 + List.length units + List.length (flat_map unit_all_pins units))%nat.
Proof.
  intros Hne Hwf Hknown; unfold draw.
  rewrite longest_num_total; [cbn [bind] | exact Hne | exact (Forall_well_formed_groups Hwf)].
  set (n := max_over num_width (flat_map unit_all_pins units)).
  destruct (@foldM_extend_total _
              (fun e : Z * unit_pins => draw_unit (List.length units) n (fst e) (snd e))
              (enumerate units)) as (blocks & Hblocks).
  { apply Forall_forall; intros [idx u] Hin; apply In_enumerate_from in Hin.
    rewrite Forall_forall in Hwf, Hknown.
    apply draw_unit_total; [exact (Hwf _ Hin) | exact (Hknown _ Hin)]. }
  rewrite (@foldM_ext _ _ _
             (fun out (entry : Z * unit_pins) =>
                ls <- (fun e : Z * unit_pins =>
                         draw_unit (List.length units) n (fst e) (snd e)) entry ;;
                Ok (out ++ ls)%list))
    by (intros o [idx u]; reflexivity).
  rewrite (foldM_extend_blocks _ _ Hblocks); cbn [bind].
  eexists; split; [reflexivity |].
  rewrite length_app; cbn [List.length app]; rewrite (draw_blocks_length _ _ _ _ Hblocks).
  lia.
Qed.

Lemma library_of_blocks (cs : list conf) (blocks : list (list string)) :
  Forall2 (fun elm block => library_elm elm = Ok block) cs blocks ->
  library (Many cs)
  = Ok (String.concat nl (library_header ++ List.concat blocks ++ [library_footer])%list).
Proof.
  intros Hall; unfold library; cbn [conf_list].
  rewrite (foldM_extend_blocks library_elm _ Hall); cbn [bind].
  rewrite <- app_assoc; reflexivity.
Qed.

(** X17. A component is assembled when it has a name and its pins are
    a list of units in the accepted forms on which the probe succeeds
    (the first unit has a pin in its first group on the left, or
    groups on the right only), none with a group without pins, a pin
    named by an integer or a type outside the table: [library] then
    returns, and the component adds to [out] 9 entries plus one per
    order code, one per unit and one per pin (the first entry, the
    comment, holds three lines of text). *)
Theorem library_returns (elm : conf) (name : scalar) (unit : unit_pins)
    (units : list unit_pins) :
  conf_name elm = Some name ->
  conf_pins elm = Some (YList (map yaml_of_unit (unit :: units))) ->
  unit_probed unit -> Forall unit_splittable (unit :: units) ->
  Forall unit_well_formed (unit :: units) -> Forall types_known (unit :: units) ->
  exists block,
    library_elm elm = Ok block /\
    library (One elm)
    = Ok (String.concat nl (library_header ++ block ++ [library_footer])%list) /\
    List.length block
    = (9 + List.length (get (conf_ordercodes elm) [])
       + List.length (unit :: units)
       + List.length (flat_map unit_all_pins (unit :: units)))%nat.
Proof.
  intros Hname Hpins Hprobe Hsplit Hwf Hknown.
  destruct (@fields_returns elm (unit :: units) name) as (fs & Hfs);
    [discriminate | exact Hwf | exact Hname |].
  destruct (@draw_total (unit :: units)) as (ds & Hds & Hdlen);
    [discriminate | exact Hwf | exact Hknown |].
  assert (Hblock : exists block,
             library_elm elm = Ok block /\
             List.length block
             = (9 + List.length (get (conf_ordercodes elm) [])
                + List.length (unit :: units)
                + List.length (flat_map unit_all_pins (unit :: units)))%nat).
  { rewrite (library_elm_listed elm Hpins Hprobe Hsplit).
    rewrite Hname; cbn [getitem bind]; rewrite Hfs; cbn [bind]; rewrite Hds; cbn [bind].
    eexists; split; [reflexivity |].
    rewrite !length_app, (fields_length _ _ Hfs), Hdlen; cbn [List.length]; lia. }
  destruct Hblock as (block & Hblock & Hlen); exists block.
  split; [exact Hblock |]; split; [| exact Hlen].
  change (library (One elm)) with (library (Many [elm])).
  rewrite (@library_of_blocks [elm] [block]) by (repeat constructor; exact Hblock).
  cbn [List.concat]; rewrite app_nil_r; reflexivity.
Qed.

(** A component of two units with two order codes. *)
Definition conf_assembled : conf :=
  Conf (Some (SStr "U")) None None None
       (Some [(SStr "Farnell", SInt 1234567); (SStr "RS", SStr "123-4567")])
       None (Some (YList (map yaml_of_unit [scenario_A; right_only]))).

(* ------------------------------------------------------------------ *)
(** ** What [library] raises *)








End Raw.

(* ================================================================== *)
(** * The statements about [library] on the scenarios *)
(* ================================================================== *)

(** None of the scenarios prints a list or a mapping. *)
Definition no_repr : yaml -> string := fun _ => "".

Lemma malformed_pins_error_witness :
  refused_form three_sides /\
  (ValueError InvalidPins = ValueError InvalidPins <-> invalid_shape three_sides) /\
  (refused_form three_sides -> ValueError InvalidPins = ValueError InvalidPins) /\
  ~ accepted_forms three_sides /\
  (ValueError InvalidPins = ValueError InvalidPins \/ ValueError InvalidPins = IndexError \/
   ValueError InvalidPins = TypeError \/
   ValueError InvalidPins = KeyError "0" \/ ValueError InvalidPins = KeyError "1") /\
  library no_repr (One conf_three_sides) = Err (ValueError InvalidPins) /\
  (forall done rest,
     Forall (fun d => exists ls, library_elm no_repr d = Ok ls) done ->
     library no_repr (Many (done ++ conf_three_sides :: rest)) = Err (ValueError InvalidPins)).
Proof.
  split.
  - right; exists [[pin_A]], pin_A, [yaml_of_side [[pin_B]]; yaml_of_side [[pin_A]]].
    split; [reflexivity |]; split; [reflexivity |]; split; [exists "A"; reflexivity |].
    repeat constructor.
  - apply (@malformed_pins_error no_repr conf_three_sides three_sides
             (ValueError InvalidPins));
      reflexivity.
Defined.

Lemma def_line_locked_flag_witness :
  exists text,
    library no_repr (Many [conf_two_units; conf_one_unit]) = Ok text /\
    exists blocks,
      text = String.concat nl
               (library_header ++ List.concat blocks ++ [library_footer])%list /\
      Forall2 def_line_flagged [conf_two_units; conf_one_unit] blocks /\
      exists block_two block_one,
        blocks = [block_two; block_one] /\
        nth_error block_two 1 = Some "DEF GATE U 0 40 Y Y 2 L N" /\
        nth_error block_one 1 = Some "DEF REG IC 0 40 Y Y 1 F N".
Proof.
  pose proof (@def_line_locked_flag no_repr (Many [conf_two_units; conf_one_unit])) as H.
  destruct (library no_repr (Many [conf_two_units; conf_one_unit])) as [text | e] eqn:E;
    [| vm_compute in E; discriminate E].
  exists text; split; [reflexivity |].
  destruct (H text eq_refl) as (blocks & Htext & Hall).
  exists blocks; split; [exact Htext |]; split; [exact Hall |].
  cbn [conf_list] in Hall.
  inversion Hall as [| e2 b2 l2 bs2 H2 Hrest]; subst.
  inversion Hrest as [| e1 b1 l1 bs1 H1 Hnil]; subst.
  inversion Hnil; subst.
  exists b2, b1; split; [reflexivity |].
  destruct H2 as (name2 & locked2 & n2 & Hname2 & Hline2 & HL2 & _ & _ & Hcount2).
  destruct H1 as (name1 & locked1 & n1 & Hname1 & Hline1 & _ & HF1 & _ & Hcount1).
  assert (Hn2 : n2 = 2%nat).
  { symmetry; apply (Hcount2 _ [scenario_A; scenario_A] eq_refl); right; reflexivity. }
  assert (Hn1 : n1 = 1%nat).
  { symmetry; apply (Hcount1 _ [scenario_A] eq_refl); left.
    exists scenario_A; split; reflexivity. }
  subst n2 n1.
  assert (Hl2 : locked2 = "L") by (apply HL2; repeat constructor).
  assert (Hl1 : locked1 = "F") by (apply HF1; reflexivity).
  subst locked2 locked1.
  injection Hname2 as <-; injection Hname1 as <-.
  split; [exact Hline2 | exact Hline1].
Defined.

Lemma library_returns_witness :
  exists block,
    library_elm no_repr conf_assembled = Ok block /\
    library no_repr (One conf_assembled)
    = Ok (String.concat nl (library_header ++ block ++ [library_footer])%list) /\
    List.length block
    = (9 + List.length (get (conf_ordercodes conf_assembled) [])
       + List.length [scenario_A; right_only]
       + List.length (flat_map unit_all_pins [scenario_A; right_only]))%nat.
Proof.
  apply (@library_returns no_repr conf_assembled (SStr "U") scenario_A [right_only]).
  - reflexivity.
  - reflexivity.
  - discriminate.
  - repeat constructor.
  - repeat constructor; try discriminate; eexists; reflexivity.
  - repeat constructor.
Defined.

